(** * skillscope-ai-backend: the request/analysis pipeline of [index.js]

    A shallow embedding of the resume-analysis backend: the JSON recovery
    helper [extractJson], the analyzer [analyzeResumeText], the two POST
    handlers and the start-up configuration, together with the parts of the
    JavaScript run time they rest on (strings of UTF-16 code units, the
    backtracking matcher behind [String.prototype.match], [JSON.parse],
    truthiness, exceptions). *)

From Stdlib Require Import ZArith NArith Ascii String List Bool Lia.
From stdpp Require Import base option list strings gmap.

#[local] Set Warnings "-register-all".

Local Open Scope N_scope.

(** ** JavaScript strings

    A JavaScript string is a sequence of UTF-16 code units.  Source literals
    are written as Rocq strings and converted with [js]. *)

Definition jsstring := list N.

Fixpoint js (s : string) : jsstring :=
  match s with
  | EmptyString => []
  | String a rest => N_of_ascii a :: js rest
  end.

Definition jsstring_eqb (a b : jsstring) : bool :=
  bool_decide (a = b).

(** Code units the source text names. *)
Definition cu_backtick : N := 96.
Definition cu_quote : N := 34.
Definition cu_backslash : N := 92.

(** ** JSON values and the JavaScript values the handlers test

    A number is kept as the exact decimal value of its literal,
    [(-1)^neg * mant * 10^expo]; its rounding to an IEEE double is only
    needed for the zero test of truthiness, see [number_is_zero].  An object
    is the list of its own properties in creation order; the handlers only
    read properties by name, so the order in which JavaScript enumerates
    integer-like keys is left out. *)

Record number := Number { neg : bool; mant : N; expo : Z }.

Inductive json :=
| JNull
| JBool (b : bool)
| JNum (n : number)
| JStr (s : jsstring)
| JArr (items : list json)
| JObj (props : list (jsstring * json)).

(** The double nearest to a positive decimal is zero exactly when the decimal
    is at most [2^-1075], half of the least subnormal [2^-1074] (a tie goes
    to the even significand, which is zero). *)
Definition number_is_zero (n : number) : bool :=
  if (mant n =? 0)%N then true
  else if (0 <=? expo n)%Z then false
  else (Z.of_N (mant n) * 2 ^ 1075 <=? 10 ^ (- expo n))%Z.

(** [ToBoolean] on the values [JSON.parse] can produce. *)
Definition truthy (v : json) : bool :=
  match v with
  | JNull => false
  | JBool b => b
  | JNum n => negb (number_is_zero n)
  | JStr s => negb (jsstring_eqb s [])
  | JArr _ => true
  | JObj _ => true
  end.

(** Property access [o.key], [None] for [undefined]. *)
Fixpoint assoc_get (key : jsstring) (props : list (jsstring * json)) : option json :=
  match props with
  | [] => None
  | (k, v) :: rest => if jsstring_eqb k key then Some v else assoc_get key rest
  end.

Definition get_prop (key : jsstring) (v : json) : option json :=
  match v with
  | JObj props => assoc_get key props
  | _ => None
  end.

(** [CreateDataProperty]: an existing key keeps its place and takes the new
    value, a new key goes last. *)
Fixpoint obj_set (key : jsstring) (v : json) (props : list (jsstring * json))
  : list (jsstring * json) :=
  match props with
  | [] => [(key, v)]
  | (k, old) :: rest =>
      if jsstring_eqb k key then (k, v) :: rest
      else (k, old) :: obj_set key v rest
  end.

(** ** The backtracking matcher behind [str.match(regex)]

    The pattern of [extractJson] uses literals, starred character classes
    (greedy and lazy) and one capturing group; a pattern is the list of its
    nodes, the group being delimited by two markers.  [run] follows the
    ECMAScript matcher: alternatives are tried in priority order and the
    first complete match wins. *)

Inductive node :=
| Lit (c : N)
| Star (cls : N -> bool) (greedy : bool)
| GroupOpen
| GroupClose.

(** The class [\s]: WhiteSpace and LineTerminator code points. *)
Definition is_space (c : N) : bool :=
  (9 <=? c) && (c <=? 13)
  || (c =? 32) || (c =? 160) || (c =? 5760)
  || (8192 <=? c) && (c <=? 8202)
  || (c =? 8232) || (c =? 8233) || (c =? 8239) || (c =? 8287)
  || (c =? 12288) || (c =? 65279).

(** The class [[\s\S]]: every code unit. *)
Definition any_unit (c : N) : bool := is_space c || negb (is_space c).

(** One starred class followed by the rest of the pattern [k].  A greedy star
    first tries to take one more unit and falls back to stopping; a lazy star
    first tries to stop.  The result is the text the star took and what [k]
    gave. *)
Fixpoint star (cls : N -> bool) (greedy : bool)
    (k : jsstring -> option (list jsstring * jsstring)) (s : jsstring)
  : option (jsstring * list jsstring * jsstring) :=
  let stop :=
    match k s with
    | Some (pieces, rest) => Some ([], pieces, rest)
    | None => None
    end in
  match s with
  | x :: s' =>
      if cls x then
        let more :=
          match star cls greedy k s' with
          | Some (own, pieces, rest) => Some (x :: own, pieces, rest)
          | None => None
          end in
        if greedy then
          match more with Some r => Some r | None => stop end
        else
          match stop with Some r => Some r | None => more end
      else stop
  | [] => stop
  end.

(** [run p s] matches [p] at the start of [s]; it gives the text each node
    consumed, in order, and the input left after the match. *)
Fixpoint run (p : list node) (s : jsstring) : option (list jsstring * jsstring) :=
  match p with
  | [] => Some ([], s)
  | Lit c :: p' =>
      match s with
      | x :: s' =>
          if (x =? c)%N then
            match run p' s' with
            | Some (pieces, rest) => Some ([x] :: pieces, rest)
            | None => None
            end
          else None
      | [] => None
      end
  | Star cls greedy :: p' =>
      match star cls greedy (run p') s with
      | Some (own, pieces, rest) => Some (own :: pieces, rest)
      | None => None
      end
  | GroupOpen :: p' | GroupClose :: p' =>
      match run p' s with
      | Some (pieces, rest) => Some ([] :: pieces, rest)
      | None => None
      end
  end.

(** The text of capturing group 1: what the nodes between the two markers
    consumed. *)
Fixpoint group1 (inside : bool) (p : list node) (pieces : list jsstring) : jsstring :=
  match p, pieces with
  | GroupOpen :: p', _ :: ps => group1 true p' ps
  | GroupClose :: p', _ :: ps => []
  | _ :: p', piece :: ps => if inside then piece ++ group1 inside p' ps else group1 inside p' ps
  | _, _ => []
  end.

(** The result array of a successful match: [m.index], [m[0]], [m[1]]. *)
Record match_result := MatchResult {
  m_index : nat;
  m_whole : jsstring;
  m_group1 : jsstring
}.

(** [RegExp.prototype.exec] for a pattern without flags: the start positions
    are tried from the left, the end of the string included. *)
Fixpoint search (p : list node) (s : jsstring) (index : nat) : option match_result :=
  match run p s with
  | Some (pieces, _) =>
      Some {| m_index := index; m_whole := concat pieces; m_group1 := group1 false p pieces |}
  | None =>
      match s with
      | [] => None
      | _ :: s' => search p s' (S index)
      end
  end.

Definition str_match (s : jsstring) (p : list node) : option match_result :=
  search p s 0.

(** The pattern [/```json\s*([\s\S]*?)\s*```/]. *)
Definition fence_open : jsstring := Eval vm_compute in js "```json".
Definition fence_close : jsstring := Eval vm_compute in js "```".

Definition jsonRegex : list node :=
  map Lit fence_open
  ++ [Star is_space true; GroupOpen; Star any_unit false; GroupClose; Star is_space true]
  ++ map Lit fence_close.

(** ** Exceptions

    What a JavaScript call ends in: a value or a thrown exception. *)

Inductive exn :=
| SyntaxError
| CollaboratorError (message : jsstring).

Inductive completion (A : Type) :=
| Return (a : A)
| Throw (e : exn).
Arguments Return {A} a.
Arguments Throw {A} e.

(** ** [JSON.parse]

    The JSON grammar of ECMA-404 as [JSON.parse] reads it, by recursive
    descent.  The recursion of values through arrays and objects is bounded
    by a fuel that [JSON_parse] sets from the length of the text;
    [parse_value_fuel] shows that it never runs out. *)

Definition cu (a : ascii) : N := N_of_ascii a.

Definition is_json_ws (c : N) : bool :=
  (c =? 32) || (c =? 9) || (c =? 10) || (c =? 13).

Fixpoint skip_ws (s : jsstring) : jsstring :=
  match s with
  | c :: s' => if is_json_ws c then skip_ws s' else s
  | [] => []
  end.

Definition is_digit (c : N) : bool := (48 <=? c) && (c <=? 57).

Definition hex_value (c : N) : option N :=
  if is_digit c then Some (c - 48)
  else if (97 <=? c) && (c <=? 102) then Some (c - 87)
  else if (65 <=? c) && (c <=? 70) then Some (c - 55)
  else None.

Definition hex4 (a b c d : N) : option N :=
  match hex_value a, hex_value b, hex_value c, hex_value d with
  | Some x, Some y, Some z, Some w => Some (((x * 16 + y) * 16 + z) * 16 + w)
  | _, _, _, _ => None
  end.

Definition escape_value (c : N) : option N :=
  if (c =? cu_quote) || (c =? cu_backslash) || (c =? cu "/") then Some c
  else if c =? cu "b" then Some 8
  else if c =? cu "f" then Some 12
  else if c =? cu "n" then Some 10
  else if c =? cu "r" then Some 13
  else if c =? cu "t" then Some 9
  else None.

(** The characters of a string literal after its opening quote, up to and
    including the closing quote. *)
Fixpoint parse_string (s : jsstring) : option (jsstring * jsstring) :=
  match s with
  | [] => None
  | c :: s1 =>
      if c =? cu_quote then Some ([], s1)
      else if c =? cu_backslash then
        match s1 with
        | [] => None
        | e :: s2 =>
            if e =? cu "u" then
              match s2 with
              | h1 :: h2 :: h3 :: h4 :: s3 =>
                  match hex4 h1 h2 h3 h4, parse_string s3 with
                  | Some u, Some (str, rest) => Some (u :: str, rest)
                  | _, _ => None
                  end
              | _ => None
              end
            else
              match escape_value e, parse_string s2 with
              | Some u, Some (str, rest) => Some (u :: str, rest)
              | _, _ => None
              end
        end
      else if c <? 32 then None
      else
        match parse_string s1 with
        | Some (str, rest) => Some (c :: str, rest)
        | None => None
        end
  end.

(** A maximal run of decimal digits, as digit values. *)
Fixpoint take_digits (s : jsstring) : list N * jsstring :=
  match s with
  | c :: s' =>
      if is_digit c then
        let '(ds, rest) := take_digits s' in ((c - 48) :: ds, rest)
      else ([], s)
  | [] => ([], [])
  end.

Definition digits_value (ds : list N) : N :=
  fold_left (fun acc d => acc * 10 + d) ds 0.

(** The integer part: a single [0], or a digit run that does not start with
    [0]. *)
Definition parse_int (s : jsstring) : option (list N * jsstring) :=
  match s with
  | c :: s' =>
      if c =? cu "0" then Some ([0], s')
      else if is_digit c then Some (take_digits s)
      else None
  | [] => None
  end.

Definition parse_frac (s : jsstring) : option (list N * jsstring) :=
  match s with
  | c :: s' =>
      if c =? cu "." then
        match take_digits s' with
        | ([], _) => None
        | (ds, rest) => Some (ds, rest)
        end
      else Some ([], s)
  | [] => Some ([], s)
  end.

(** An optional sign of the exponent; [true] for a minus. *)
Definition take_sign (s : jsstring) : bool * jsstring :=
  match s with
  | sg :: t =>
      if sg =? cu "-" then (true, t)
      else if sg =? cu "+" then (false, t)
      else (false, s)
  | [] => (false, s)
  end.

Definition parse_exp (s : jsstring) : option (Z * jsstring) :=
  match s with
  | c :: s' =>
      if (c =? cu "e") || (c =? cu "E") then
        let '(negative, s'') := take_sign s' in
        match take_digits s'' with
        | ([], _) => None
        | (ds, rest) =>
            let e := Z.of_N (digits_value ds) in
            Some (if negative then (- e)%Z else e, rest)
        end
      else Some (0%Z, s)
  | [] => Some (0%Z, s)
  end.

(** The optional minus of a number. *)
Definition take_minus (s : jsstring) : bool * jsstring :=
  match s with
  | c :: s' => if c =? cu "-" then (true, s') else (false, s)
  | [] => (false, s)
  end.

Definition parse_number (s : jsstring) : option (number * jsstring) :=
  let '(negative, s1) := take_minus s in
  match parse_int s1 with
  | None => None
  | Some (int_ds, s2) =>
      match parse_frac s2 with
      | None => None
      | Some (frac_ds, s3) =>
          match parse_exp s3 with
          | None => None
          | Some (e, s4) =>
              Some ({| neg := negative;
                       mant := digits_value (int_ds ++ frac_ds);
                       expo := (e - Z.of_nat (length frac_ds))%Z |}, s4)
          end
      end
  end.

(** [strip_prefix w s] is what follows the word [w] at the start of [s]. *)
Fixpoint strip_prefix (w s : jsstring) : option jsstring :=
  match w, s with
  | [], _ => Some s
  | a :: w', b :: s' => if a =? b then strip_prefix w' s' else None
  | _ :: _, [] => None
  end.

Inductive presult (A : Type) :=
| POk (a : A) (rest : jsstring)
| PErr
| PFuel.
Arguments POk {A} a rest.
Arguments PErr {A}.
Arguments PFuel {A}.

Definition parse_literal (w : string) (v : json) (s : jsstring) : presult json :=
  match strip_prefix (js w) s with
  | Some rest => POk v rest
  | None => PErr
  end.

Fixpoint parse_value (fuel : nat) (s : jsstring) : presult json :=
  match fuel with
  | O => PFuel
  | S f =>
      match skip_ws s with
      | [] => PErr
      | c :: r =>
          if c =? cu "{" then
            match skip_ws r with
            | c' :: r' =>
                if c' =? cu "}" then POk (JObj []) r'
                else parse_members f (c' :: r') []
            | [] => PErr
            end
          else if c =? cu "[" then
            match skip_ws r with
            | c' :: r' =>
                if c' =? cu "]" then POk (JArr []) r'
                else parse_elements f (c' :: r') []
            | [] => PErr
            end
          else if c =? cu_quote then
            match parse_string r with
            | Some (str, rest) => POk (JStr str) rest
            | None => PErr
            end
          else if c =? cu "t" then parse_literal "true" (JBool true) (c :: r)
          else if c =? cu "f" then parse_literal "false" (JBool false) (c :: r)
          else if c =? cu "n" then parse_literal "null" JNull (c :: r)
          else
            match parse_number (c :: r) with
            | Some (n, rest) => POk (JNum n) rest
            | None => PErr
            end
      end
  end

with parse_elements (fuel : nat) (s : jsstring) (acc : list json) : presult json :=
  match fuel with
  | O => PFuel
  | S f =>
      match parse_value f s with
      | POk v rest =>
          match skip_ws rest with
          | c :: r =>
              if c =? cu "," then parse_elements f r (acc ++ [v])
              else if c =? cu "]" then POk (JArr (acc ++ [v])) r
              else PErr
          | [] => PErr
          end
      | PErr => PErr
      | PFuel => PFuel
      end
  end

with parse_members (fuel : nat) (s : jsstring) (acc : list (jsstring * json))
  : presult json :=
  match fuel with
  | O => PFuel
  | S f =>
      match skip_ws s with
      | q :: r =>
          if q =? cu_quote then
            match parse_string r with
            | Some (key, r1) =>
                match skip_ws r1 with
                | colon :: r2 =>
                    if colon =? cu ":" then
                      match parse_value f r2 with
                      | POk v r3 =>
                          match skip_ws r3 with
                          | c :: r4 =>
                              if c =? cu "," then parse_members f r4 (obj_set key v acc)
                              else if c =? cu "}" then POk (JObj (obj_set key v acc)) r4
                              else PErr
                          | [] => PErr
                          end
                      | PErr => PErr
                      | PFuel => PFuel
                      end
                    else PErr
                | [] => PErr
                end
            | None => PErr
            end
          else PErr
      | [] => PErr
      end
  end.

(** Enough fuel for any text of this length, see [parse_value_fuel]. *)
Definition parse_fuel (s : jsstring) : nat := 2 * length s + 1.

(** [JSON.parse(text)]: one value, optionally surrounded by white space, and
    nothing else; anything else throws a [SyntaxError]. *)
Definition JSON_parse (text : jsstring) : completion json :=
  match parse_value (parse_fuel text) text with
  | POk v rest =>
      match skip_ws rest with
      | [] => Return v
      | _ :: _ => Throw SyntaxError
      end
  | PErr => Throw SyntaxError
  | PFuel => Throw SyntaxError
  end.

(** ** Effects of the handlers

    A handler writes to the console and calls its collaborators (the
    generative model, the two document decoders); these are the events of a
    run.  A computation ends in a value or an exception and leaves the events
    it produced, in order. *)

Definition bytes := list Byte.byte.

Inductive event :=
| ConsoleError (label : string)
| CallGenerateContent (prompt : jsstring)
| CallPdf (buffer : bytes)
| CallMammoth (buffer : bytes).

Definition M (A : Type) : Type := completion A * list event.

Definition ret {A} (a : A) : M A := (Return a, []).

Definition bind {A B} (m : M A) (f : A -> M B) : M B :=
  match m with
  | (Return a, t) => let '(r, t') := f a in (r, t ++ t')
  | (Throw e, t) => (Throw e, t)
  end.

(** [try { m } catch (error) { h error }] *)
Definition try_catch {A} (m : M A) (h : exn -> M A) : M A :=
  match m with
  | (Return a, t) => (Return a, t)
  | (Throw e, t) => let '(r, t') := h e in (r, t ++ t')
  end.

Definition lift {A} (c : completion A) : M A := (c, []).

Definition emit (ev : event) : M unit := (Return tt, [ev]).

Definition console_error (label : string) : M unit := emit (ConsoleError label).

Notation "x <- m ;; k" := (bind m (fun x => k))
  (at level 100, m at next level, right associativity).
Notation "m ;;; k" := (bind m (fun _ => k))
  (at level 100, right associativity).

Definition result_of {A} (m : M A) : completion A := fst m.
Definition events_of {A} (m : M A) : list event := snd m.

(** ** [extractJson] *)

(** [match && match[1]]: a match whose group 1 is not the empty string. *)
Definition usable_match (m : option match_result) : option jsstring :=
  match m with
  | Some r => if jsstring_eqb (m_group1 r) [] then None else Some (m_group1 r)
  | None => None
  end.

Definition extractJson (str : jsstring) : M json :=
  let match_ := str_match str jsonRegex in
  match usable_match match_ with
  | Some group =>
      try_catch (lift (JSON_parse group))
        (fun error =>
           console_error "Failed to parse extracted JSON:" ;;;
           ret JNull)
  | None =>
      try_catch (lift (JSON_parse str))
        (fun error =>
           console_error "String is not a valid JSON object:" ;;;
           ret JNull)
  end.

(** ** [analyzeResumeText] *)

Definition nl : string := String (ascii_of_nat 10) EmptyString.
Definition dq : string := String (ascii_of_nat 34) EmptyString.

Fixpoint unlines (ls : list string) : string :=
  match ls with
  | [] => EmptyString
  | [l] => l
  | l :: rest => l +:+ nl +:+ unlines rest
  end.

(** The template literal of the prompt, before and after
    [${textToAnalyze}]. *)
Definition prompt_head_lines : list string :=
  [ EmptyString;
    "        Analyze the resume text provided below. Based on the skills and experience, perform the following tasks:";
    "        1.  Identify the user's key skills.";
    "        2.  Suggest three relevant, in-demand job titles.";
    "        3.  For each job title, list the key required skills.";
    "        4.  Compare the user's skills with the job requirements to find the missing skills for each job.";
    "        5.  For each missing skill, recommend one specific online course from Coursera or Udemy, including the course name and a direct URL.";
    EmptyString;
    "        Return the output ONLY as a single, valid JSON object, enclosed in ```json ... ```. Do not include any introductory text or explanations outside of the JSON block.";
    EmptyString;
    "        The JSON structure must be:";
    "        {";
    "          " +:+ dq +:+ "userSkills" +:+ dq +:+ ": [" +:+ dq +:+ "Skill 1" +:+ dq +:+ ", " +:+ dq +:+ "Skill 2" +:+ dq +:+ "],";
    "          " +:+ dq +:+ "jobSuggestions" +:+ dq +:+ ": [";
    "            {";
    "              " +:+ dq +:+ "title" +:+ dq +:+ ": " +:+ dq +:+ "Job Title 1" +:+ dq +:+ ",";
    "              " +:+ dq +:+ "requiredSkills" +:+ dq +:+ ": [" +:+ dq +:+ "Skill A" +:+ dq +:+ ", " +:+ dq +:+ "Skill B" +:+ dq +:+ ", " +:+ dq +:+ "Skill C" +:+ dq +:+ "],";
    "              " +:+ dq +:+ "missingSkills" +:+ dq +:+ ": [";
    "                {";
    "                  " +:+ dq +:+ "skill" +:+ dq +:+ ": " +:+ dq +:+ "Skill C" +:+ dq +:+ ",";
    "                  " +:+ dq +:+ "recommendation" +:+ dq +:+ ": {";
    "                    " +:+ dq +:+ "course" +:+ dq +:+ ": " +:+ dq +:+ "Course Name for Skill C" +:+ dq +:+ ",";
    "                    " +:+ dq +:+ "url" +:+ dq +:+ ": " +:+ dq +:+ "https://www.coursera.org/..." +:+ dq;
    "                  }";
    "                }";
    "              ]";
    "            }";
    "          ]";
    "        }";
    EmptyString;
    "        --- Resume Text ---";
    "        " ].

Definition prompt_tail_lines : list string :=
  [ EmptyString;
    "    " ].

Definition build_prompt (textToAnalyze : jsstring) : jsstring :=
  js (unlines prompt_head_lines) ++ textToAnalyze ++ js (unlines prompt_tail_lines).

Section Handlers.

(** The collaborators.  [model_generateContent prompt] stands for
    [(await model.generateContent(prompt)).response.text()]: the text of the
    reply, or the exception either call throws.  [pdf] gives [data.text] and
    [mammoth_extractRawText] gives [value]. *)
Variable model_generateContent : jsstring -> completion jsstring.
Variable pdf : bytes -> completion jsstring.
Variable mammoth_extractRawText : bytes -> completion jsstring.

Definition call_generateContent (prompt : jsstring) : M jsstring :=
  emit (CallGenerateContent prompt) ;;; lift (model_generateContent prompt).

Definition call_pdf (buffer : bytes) : M jsstring :=
  emit (CallPdf buffer) ;;; lift (pdf buffer).

Definition call_mammoth (buffer : bytes) : M jsstring :=
  emit (CallMammoth buffer) ;;; lift (mammoth_extractRawText buffer).

Definition analyzeResumeText (textToAnalyze : jsstring) : M json :=
  let prompt := build_prompt textToAnalyze in
  try_catch
    (text <- call_generateContent prompt ;;
     extractJson text)
    (fun error =>
       console_error "Error calling Gemini API:" ;;;
       ret JNull).

(** ** The endpoints *)

Record response := Response { status : Z; body : json }.

(** [res.status(code).json({ error: message })] *)
Definition error_response (code : Z) (message : string) : response :=
  {| status := code; body := JObj [(js "error", JStr (js message))] |}.

(** [res.json({ analysis: analysisResult })] *)
Definition analysis_response (analysisResult : json) : response :=
  {| status := 200; body := JObj [(js "analysis", analysisResult)] |}.

(** The body of a text request: [resumeText] is a string or is missing. *)
Record text_body := TextBody { resumeText : option jsstring }.

(** [resumeText] when [!resumeText] is false: present and not empty. *)
Definition provided (field : option jsstring) : option jsstring :=
  match field with
  | Some (c :: rest) => Some (c :: rest)
  | _ => None
  end.

Definition analyze_text (req_body : text_body) : M response :=
  match provided (resumeText req_body) with
  | None => ret (error_response 400 "Resume text is required")
  | Some text =>
      analysisResult <- analyzeResumeText text ;;
      if negb (truthy analysisResult) then
        ret (error_response 500 "Failed to analyze resume from text.")
      else
        ret (analysis_response analysisResult)
  end.

(** [req.file] as multer's memory storage fills it. *)
Record file := File { mimetype : jsstring; buffer : bytes }.

Definition mime_pdf : jsstring := js "application/pdf".
Definition mime_docx : jsstring :=
  js "application/vnd.openxmlformats-officedocument.wordprocessingml.document".

(** The handler from the test of the extracted text on. *)
Definition analyze_extracted (text : jsstring) : M response :=
  if jsstring_eqb text [] then
    ret (error_response 500 "Failed to extract text from the file.")
  else
    analysisResult <- analyzeResumeText text ;;
    if negb (truthy analysisResult) then
      ret (error_response 500 "Failed to analyze resume from file.")
    else
      ret (analysis_response analysisResult).

Definition analyze_file (req_file : option file) : M response :=
  match req_file with
  | None => ret (error_response 400 "No file uploaded.")
  | Some f =>
      try_catch
        (if jsstring_eqb (mimetype f) mime_pdf then
           text <- call_pdf (buffer f) ;;
           analyze_extracted text
         else if jsstring_eqb (mimetype f) mime_docx then
           text <- call_mammoth (buffer f) ;;
           analyze_extracted text
         else
           ret (error_response 400 "Unsupported file type. Please upload a PDF or DOCX file."))
        (fun error =>
           console_error "Error in file processing endpoint:" ;;;
           ret (error_response 500 "An internal server error occurred."))
  end.

End Handlers.

(** ** Start-up configuration *)





(** * The vocabulary of the statements *)

(** ** JSON recovery *)

(** The value a caught parse leaves: the parsed value, or [null]. *)
Definition value_or_null (c : completion json) : json :=
  match c with
  | Return v => v
  | Throw _ => JNull
  end.

(** The text [extractJson] hands to [JSON.parse]. *)
Definition recovery_target (str : jsstring) : jsstring :=
  match usable_match (str_match str jsonRegex) with
  | Some group => group
  | None => str
  end.

Definition fenced_a1 : jsstring :=
  js ("```json" +:+ nl +:+ "{" +:+ dq +:+ "a" +:+ dq +:+ ":1}" +:+ nl +:+ "```").
Definition bare_a1 : jsstring := js ("{" +:+ dq +:+ "a" +:+ dq +:+ ":1}").
Definition object_a1 : json := JObj [(js "a", JNum {| neg := false; mant := 1; expo := 0 |})].

(** The whole-string branch of [extractJson]. *)
Definition parse_whole (str : jsstring) : M json :=
  try_catch (lift (JSON_parse str))
    (fun error => console_error "String is not a valid JSON object:" ;;; ret JNull).

Definition empty_fence : jsstring := js ("```json" +:+ nl +:+ "```").

(** ** Matches of a pattern *)

(** What a node may consume. *)
Inductive node_takes : node -> jsstring -> Prop :=
| takes_lit c : node_takes (Lit c) [c]
| takes_star cls greedy own : forallb cls own = true -> node_takes (Star cls greedy) own
| takes_open : node_takes GroupOpen []
| takes_close : node_takes GroupClose [].

(** [pieces] is a way for the pattern [p] to match a prefix of the input. *)
Definition parses (p : list node) (pieces : list jsstring) : Prop :=
  Forall2 node_takes p pieces.

(** A json-tagged fenced block: an opening fence and, after it, a closing
    fence. *)
Definition contains_fence (raw : jsstring) : Prop :=
  exists before inside after,
    raw = before ++ fence_open ++ inside ++ fence_close ++ after.

Definition all_space (s : jsstring) : Prop := forallb is_space s = true.

Definition fence_pieces (ws1 group ws2 : jsstring) : list jsstring :=
  map (fun c => [c]) fence_open ++ [ws1; []; group; []; ws2] ++ map (fun c => [c]) fence_close.

(** The pattern after the opening fence and its white space, and after the
    group. *)
Definition after_group : list node :=
  [GroupClose; Star is_space true] ++ map Lit fence_close.
Definition from_group : list node :=
  [GroupOpen; Star any_unit false] ++ after_group.

(** The claim of C4 read at one input: parse the interior when a fenced
    block is found, the whole string only when none is found, [null] on a
    parse failure. *)
Definition recovers_fence_first (raw : jsstring) : Prop :=
  match str_match raw jsonRegex with
  | Some m => result_of (extractJson raw) = Return (value_or_null (JSON_parse (m_group1 m)))
  | None => result_of (extractJson raw) = Return (value_or_null (JSON_parse raw))
  end.

(** A JSON string literal whose text is a fenced block with nothing inside. *)
Definition quoted_fence : jsstring := js (dq +:+ "```json```" +:+ dq).

(** ** The endpoints and their collaborators *)

Definition msg_text_failed : string := "Failed to analyze resume from text.".
Definition msg_file_failed : string := "Failed to analyze resume from file.".

(** A model that always replies with the same text. *)
Definition replying (reply : jsstring) : jsstring -> completion jsstring :=
  fun _ => Return reply.

(** A model whose call always fails. *)
Definition failing (message : string) : jsstring -> completion jsstring :=
  fun _ => Throw (CollaboratorError (js message)).



Definition msg_unsupported : string :=
  "Unsupported file type. Please upload a PDF or DOCX file.".
Definition msg_extract_failed : string := "Failed to extract text from the file.".
Definition msg_internal : string := "An internal server error occurred.".

(** What the decoder selected for a file gives: nothing for a media type that
    is neither PDF nor DOCX. *)
Definition decoder_outcome (pdf mammoth : bytes -> completion jsstring) (f : file)
  : option (completion jsstring) :=
  if decide (mimetype f = mime_pdf) then Some (pdf (buffer f))
  else if decide (mimetype f = mime_docx) then Some (mammoth (buffer f))
  else None.

(** A decoder that always gives the same text. *)
Definition decoding (text : jsstring) : bytes -> completion jsstring :=
  fun _ => Return text.

Definition pdf_upload : file := {| mimetype := mime_pdf; buffer := [] |}.


(** ** Decoder calls *)

Inductive decoder := PdfDecoder | DocxDecoder.

Definition decoder_call (ev : event) : option (decoder * bytes) :=
  match ev with
  | CallPdf b => Some (PdfDecoder, b)
  | CallMammoth b => Some (DocxDecoder, b)
  | _ => None
  end.

(** The decoders a run called, with the buffers they were given. *)
Fixpoint decoders_called (evs : list event) : list (decoder * bytes) :=
  match evs with
  | [] => []
  | ev :: rest =>
      match decoder_call ev with
      | Some d => d :: decoders_called rest
      | None => decoders_called rest
      end
  end.

Definition text_plain_upload (content : bytes) : file :=
  {| mimetype := js "text/plain"; buffer := content |}.

(** ** The data model *)

(** The shape of an [AnalysisResult] as the data model gives it:
    [{ userSkills: string[], jobSuggestions: JobSuggestion[] }], a
    [JobSuggestion] being [{ title, requiredSkills: string[], missingSkills:
    MissingSkill[] }] and a [MissingSkill]
    [{ skill, recommendation: { course, url } }]. *)
Definition is_string (v : json) : bool :=
  match v with
  | JStr _ => true
  | _ => false
  end.

Definition array_of (item : json -> bool) (v : json) : bool :=
  match v with
  | JArr items => forallb item items
  | _ => false
  end.

Definition field (key : string) (shape : json -> bool) (v : json) : bool :=
  match get_prop (js key) v with
  | Some x => shape x
  | None => false
  end.

Definition well_formed_Recommendation (v : json) : bool :=
  field "course" is_string v && field "url" is_string v.

Definition well_formed_MissingSkill (v : json) : bool :=
  field "skill" is_string v && field "recommendation" well_formed_Recommendation v.

Definition well_formed_JobSuggestion (v : json) : bool :=
  field "title" is_string v
  && field "requiredSkills" (array_of is_string) v
  && field "missingSkills" (array_of well_formed_MissingSkill) v.

Definition well_formed_AnalysisResult (v : json) : bool :=
  field "userSkills" (array_of is_string) v
  && field "jobSuggestions" (array_of well_formed_JobSuggestion) v.


(** ** Start-up *)




(** ** Replies and runs *)

(** No code unit of [s] is a backtick. *)
Definition no_backtick (s : jsstring) : bool :=
  forallb (fun c => negb (c =? cu_backtick)) s.

(** [t] is not empty and has no white space at either end. *)
Definition trimmed (t : jsstring) : bool :=
  match t with
  | [] => false
  | c :: _ => negb (is_space c) && negb (is_space (List.last t c))
  end.

(** A reply that wraps [t] in a json fence: a preamble, the opening fence,
    white space, [t], white space, the closing fence and whatever follows. *)
Definition fenced_reply (pre ws1 t ws2 post : jsstring) : jsstring :=
  pre ++ fence_open ++ ws1 ++ t ++ ws2 ++ fence_close ++ post.


(** The labels a run wrote with [console.error], in order. *)
Fixpoint console_errors (evs : list event) : list string :=
  match evs with
  | [] => []
  | ConsoleError label :: rest => label :: console_errors rest
  | _ :: rest => console_errors rest
  end.


(** The label [extractJson] logs when the parse of a reply fails: one for
    the interior of a fenced block, one for the whole string. *)
Definition parse_failure_label (reply : jsstring) : string :=
  match usable_match (str_match reply jsonRegex) with
  | Some _ => "Failed to parse extracted JSON:"
  | None => "String is not a valid JSON object:"
  end.

(** What [analyzeResumeText] writes to the console for an outcome of the
    model call. *)
Definition analyzer_logs (outcome : completion jsstring) : list event :=
  match outcome with
  | Throw _ => [ConsoleError "Error calling Gemini API:"]
  | Return reply =>
      match JSON_parse (recovery_target reply) with
      | Return _ => []
      | Throw _ => [ConsoleError (parse_failure_label reply)]
      end
  end.

(** The decoder call the file endpoint makes for a supported file. *)
Definition decoder_request (f : file) : event :=
  if decide (mimetype f = mime_pdf) then CallPdf (buffer f) else CallMammoth (buffer f).

(** A model that echoes its prompt. *)
Definition echoing : jsstring -> completion jsstring :=
  fun prompt => Return prompt.

(** A reply with a preamble, a fenced analysis and a second fenced block
    after it. *)
Definition sample_analysis_text : jsstring :=
  js ("{" +:+ dq +:+ "userSkills" +:+ dq +:+ ":[" +:+ dq +:+ "Python" +:+ dq +:+ "],"
      +:+ dq +:+ "jobSuggestions" +:+ dq +:+ ":[{"
      +:+ dq +:+ "title" +:+ dq +:+ ":" +:+ dq +:+ "Data Engineer" +:+ dq +:+ ","
      +:+ dq +:+ "requiredSkills" +:+ dq +:+ ":[" +:+ dq +:+ "Python" +:+ dq +:+ ","
      +:+ dq +:+ "SQL" +:+ dq +:+ "],"
      +:+ dq +:+ "missingSkills" +:+ dq +:+ ":[{"
      +:+ dq +:+ "skill" +:+ dq +:+ ":" +:+ dq +:+ "SQL" +:+ dq +:+ ","
      +:+ dq +:+ "recommendation" +:+ dq +:+ ":{"
      +:+ dq +:+ "course" +:+ dq +:+ ":" +:+ dq +:+ "SQL Basics" +:+ dq +:+ ","
      +:+ dq +:+ "url" +:+ dq +:+ ":" +:+ dq +:+ "https://www.coursera.org/learn/sql" +:+ dq
      +:+ "}}]}]}").

Definition sample_analysis : json :=
  JObj [(js "userSkills", JArr [JStr (js "Python")]);
        (js "jobSuggestions",
         JArr [JObj [(js "title", JStr (js "Data Engineer"));
                     (js "requiredSkills", JArr [JStr (js "Python"); JStr (js "SQL")]);
                     (js "missingSkills",
                      JArr [JObj [(js "skill", JStr (js "SQL"));
                                  (js "recommendation",
                                   JObj [(js "course", JStr (js "SQL Basics"));
                                         (js "url",
                                          JStr (js "https://www.coursera.org/learn/sql"))])]])]])].

Definition sample_reply : jsstring :=
  fenced_reply (js ("Here is the analysis:" +:+ nl)) (js nl) sample_analysis_text (js nl)
    (js (nl +:+ "```json" +:+ nl +:+ "1" +:+ nl +:+ "```")).

(** A reply in a fence without the json tag. *)
Definition untagged_reply : jsstring :=
  js ("```" +:+ nl +:+ "{" +:+ dq +:+ "a" +:+ dq +:+ ":1}" +:+ nl +:+ "```").

(** * Properties *)

(** ** [JSON.parse] never runs out of fuel *)

#[local] Arguments cu : simpl never.

Ltac break_in H :=
  repeat match type of H with
         | context [match ?x with _ => _ end] =>
             let E := fresh "E" in destruct x eqn:E; try discriminate H
         end.

Ltac break_goal :=
  repeat match goal with
         | |- context [match ?x with _ => _ end] =>
             let E := fresh "E" in destruct x eqn:E; try discriminate
         end.

Lemma skip_ws_le (s : jsstring) : (length (skip_ws s) <= length s)%nat.
Proof.
  induction s as [|c s IH]; simpl; [lia|].
  destruct (is_json_ws c); simpl; lia.
Qed.

Lemma skip_ws_cons_le (s r : jsstring) (c : N) :
  skip_ws s = c :: r -> (S (length r) <= length s)%nat.
Proof. intros H. pose proof (skip_ws_le s) as Hl. rewrite H in Hl. exact Hl. Qed.

Lemma parse_string_lt (n : nat) : forall s str rest,
  (length s <= n)%nat ->
  parse_string s = Some (str, rest) -> (length rest < length s)%nat.
Proof.
  induction n as [|n IH]; intros s str rest Hn H.
  - destruct s; [discriminate | simpl in Hn; lia].
  - destruct s as [|c s1]; [discriminate|]. simpl in Hn. simpl in H.
    destruct (c =? cu_quote).
    + injection H as <- <-. simpl. lia.
    + destruct (c =? cu_backslash).
      * destruct s1 as [|e s2]; [discriminate|].
        destruct (e =? cu "u").
        -- destruct s2 as [|h1 [|h2 [|h3 [|h4 s3]]]]; cbv iota in H; try discriminate.
           destruct (hex4 h1 h2 h3 h4); [|discriminate].
           destruct (parse_string s3) as [[str' rest']|] eqn:Hs; [|discriminate].
           injection H as <- <-. simpl in *.
           assert (length rest' < length s3)%nat by (apply (IH s3 str' rest'); [lia | exact Hs]).
           lia.
        -- destruct (escape_value e); [|discriminate].
           destruct (parse_string s2) as [[str' rest']|] eqn:Hs; [|discriminate].
           injection H as <- <-. simpl in *.
           assert (length rest' < length s2)%nat by (apply (IH s2 str' rest'); [lia | exact Hs]).
           lia.
      * destruct (c <? 32); [discriminate|].
        destruct (parse_string s1) as [[str' rest']|] eqn:Hs; [|discriminate].
        injection H as <- <-. simpl.
        assert (length rest' < length s1)%nat by (apply (IH s1 str' rest'); [lia | exact Hs]).
        lia.
Qed.

Lemma take_digits_le (s : jsstring) : (length (snd (take_digits s)) <= length s)%nat.
Proof.
  induction s as [|c s IH]; simpl; [lia|].
  destruct (is_digit c); simpl; [|lia].
  destruct (take_digits s) as [ds rest]. simpl in *. lia.
Qed.

Lemma parse_int_le (s : jsstring) ds rest :
  parse_int s = Some (ds, rest) -> (length rest <= length s)%nat.
Proof.
  destruct s as [|c s]; [discriminate|]. unfold parse_int.
  destruct (c =? cu "0"); [intros H; injection H as <- <-; simpl; lia|].
  destruct (is_digit c); [|discriminate].
  intros H. assert (H' : take_digits (c :: s) = (ds, rest)) by (injection H as H; exact H).
  pose proof (take_digits_le (c :: s)) as Hl. rewrite H' in Hl. exact Hl.
Qed.

Lemma parse_frac_le (s : jsstring) ds rest :
  parse_frac s = Some (ds, rest) -> (length rest <= length s)%nat.
Proof.
  destruct s as [|c s]; simpl; [intros H; injection H as <- <-; simpl; lia|].
  destruct (c =? cu "."); [|intros H; injection H as <- <-; simpl; lia].
  pose proof (take_digits_le s) as Hl.
  destruct (take_digits s) as [[|d ds'] r]; [discriminate|].
  intros H. injection H as <- <-. simpl in *. lia.
Qed.

Lemma take_sign_le (s : jsstring) : (length (snd (take_sign s)) <= length s)%nat.
Proof.
  destruct s as [|sg t]; simpl; [lia|].
  destruct (sg =? cu "-"); [simpl; lia|].
  destruct (sg =? cu "+"); simpl; lia.
Qed.

Lemma take_minus_le (s : jsstring) : (length (snd (take_minus s)) <= length s)%nat.
Proof.
  destruct s as [|c s']; simpl; [lia|].
  destruct (c =? cu "-"); simpl; lia.
Qed.

Lemma parse_exp_le (s : jsstring) e rest :
  parse_exp s = Some (e, rest) -> (length rest <= length s)%nat.
Proof.
  destruct s as [|c s]; simpl; [intros H; injection H as <- <-; simpl; lia|].
  destruct ((c =? cu "e") || (c =? cu "E")); [|intros H; injection H as <- <-; simpl; lia].
  pose proof (take_sign_le s) as Hs.
  destruct (take_sign s) as [negative s''].
  pose proof (take_digits_le s'') as Hl.
  destruct (take_digits s'') as [[|d ds'] r]; [discriminate|].
  intros H. injection H as <- <-. simpl in *. lia.
Qed.

Lemma parse_number_le (s : jsstring) n rest :
  parse_number s = Some (n, rest) -> (length rest <= length s)%nat.
Proof.
  unfold parse_number.
  pose proof (take_minus_le s) as Hs.
  destruct (take_minus s) as [negative s1].
  destruct (parse_int s1) as [[int_ds s2]|] eqn:Hi; [|discriminate].
  destruct (parse_frac s2) as [[frac_ds s3]|] eqn:Hf; [|discriminate].
  destruct (parse_exp s3) as [[e s4]|] eqn:He; [|discriminate].
  intros H. injection H as <- <-.
  apply parse_int_le in Hi. apply parse_frac_le in Hf. apply parse_exp_le in He.
  simpl in Hs. lia.
Qed.

Lemma strip_prefix_le (w : jsstring) : forall s rest,
  strip_prefix w s = Some rest -> (length rest <= length s)%nat.
Proof.
  induction w as [|a w IH]; intros s rest H; simpl in H.
  - injection H as <-. lia.
  - destruct s as [|b s]; [discriminate|].
    destruct (a =? b); [|discriminate]. apply IH in H. simpl. lia.
Qed.

Lemma parse_literal_le w v (s : jsstring) v' rest :
  parse_literal w v s = POk v' rest -> (length rest <= length s)%nat.
Proof.
  unfold parse_literal. destruct (strip_prefix (js w) s) eqn:H; [|discriminate].
  intros H'. injection H' as <- <-. exact (strip_prefix_le _ _ _ H).
Qed.

Ltac length_facts :=
  repeat match goal with
         | E : skip_ws _ = _ :: _ |- _ => apply skip_ws_cons_le in E
         | E : parse_string _ = Some _ |- _ => apply (parse_string_lt _ _ _ _ (le_n _)) in E
         | E : parse_number _ = Some _ |- _ => apply parse_number_le in E
         | E : parse_literal _ _ _ = POk _ _ |- _ => apply parse_literal_le in E
         end.

(** A successful parse never gives back more input than it was given. *)
Lemma parse_le (f : nat) :
  (forall s v rest, parse_value f s = POk v rest -> (length rest <= length s)%nat)
  /\ (forall s acc v rest,
        parse_elements f s acc = POk v rest -> (length rest <= length s)%nat)
  /\ (forall s acc v rest,
        parse_members f s acc = POk v rest -> (length rest <= length s)%nat).
Proof.
  induction f as [|f (IHv & IHe & IHm)]; [repeat split; discriminate|].
  repeat split.
  - intros s v rest H. cbn [parse_value] in H. break_in H;
      first [ injection H as <- <- | apply IHe in H | apply IHm in H | idtac ];
      length_facts; simpl in *; lia.
  - intros s acc v rest H. cbn [parse_elements] in H. break_in H;
      first [ injection H as <- <- | apply IHe in H ];
      repeat match goal with
             | E : parse_value f _ = POk _ _ |- _ => apply IHv in E
             end;
      length_facts; simpl in *; lia.
  - intros s acc v rest H. cbn [parse_members] in H. break_in H;
      first [ injection H as <- <- | apply IHm in H ];
      repeat match goal with
             | E : parse_value f _ = POk _ _ |- _ => apply IHv in E
             end;
      length_facts; simpl in *; lia.
Qed.

Lemma parse_value_le f s v rest :
  parse_value f s = POk v rest -> (length rest <= length s)%nat.
Proof. apply parse_le. Qed.

Lemma parse_literal_fuel w v (s : jsstring) : parse_literal w v s <> PFuel.
Proof. unfold parse_literal. destruct (strip_prefix (js w) s); discriminate. Qed.

(** With more than twice the length of the input as fuel, the parser does not
    run out. *)
Lemma parse_fuel_enough (f : nat) :
  (forall s, (2 * length s < f)%nat -> parse_value f s <> PFuel)
  /\ (forall s acc, (2 * length s + 1 < f)%nat -> parse_elements f s acc <> PFuel)
  /\ (forall s acc, (2 * length s + 1 < f)%nat -> parse_members f s acc <> PFuel).
Proof.
  induction f as [|f (IHv & IHe & IHm)]; [repeat split; intros; lia|].
  repeat split.
  - intros s Hs. cbn [parse_value]. break_goal;
      first [ apply parse_literal_fuel
            | apply IHe; length_facts; simpl in *; lia
            | apply IHm; length_facts; simpl in *; lia ].
  - intros s acc Hs. cbn [parse_elements]. break_goal;
      first [ apply IHe;
              repeat match goal with
                     | E : parse_value f _ = POk _ _ |- _ => apply parse_value_le in E
                     end;
              length_facts; simpl in *; lia
            | exfalso; eapply IHv; [|eassumption]; lia ].
  - intros s acc Hs. cbn [parse_members]. break_goal;
      first [ apply IHm;
              repeat match goal with
                     | E : parse_value f _ = POk _ _ |- _ => apply parse_value_le in E
                     end;
              length_facts; simpl in *; lia
            | exfalso; eapply IHv; [|eassumption]; length_facts; simpl in *; lia ].
Qed.

Lemma parse_value_fuel (s : jsstring) : parse_value (parse_fuel s) s <> PFuel.
Proof. apply parse_fuel_enough. unfold parse_fuel. lia. Qed.

(** [JSON_parse] throws only for a text that is not JSON: the value was
    refused, or something other than white space follows it. *)
Lemma JSON_parse_throw (text : jsstring) (e : exn) :
  JSON_parse text = Throw e ->
  e = SyntaxError
  /\ (parse_value (parse_fuel text) text = PErr
      \/ exists v rest c rest',
           parse_value (parse_fuel text) text = POk v rest
           /\ skip_ws rest = c :: rest').
Proof.
  unfold JSON_parse. pose proof (parse_value_fuel text) as Hf.
  destruct (parse_value (parse_fuel text) text) as [v rest| |]; [| |congruence].
  - destruct (skip_ws rest) as [|c rest'] eqn:Hr; [discriminate|].
    intros H. injection H as <-. split; [reflexivity|]. right. eauto 10.
  - intros H. injection H as <-. auto.
Qed.

(** ** The matcher finds a match exactly when one exists *)

Lemma star_unfold cls greedy k (x : N) (s : jsstring) :
  star cls greedy k (x :: s) =
  let stop := match k (x :: s) with
              | Some (pieces, rest) => Some ([], pieces, rest)
              | None => None
              end in
  if cls x then
    let more := match star cls greedy k s with
                | Some (own, pieces, rest) => Some (x :: own, pieces, rest)
                | None => None
                end in
    if greedy then match more with Some r => Some r | None => stop end
    else match stop with Some r => Some r | None => more end
  else stop.
Proof. reflexivity. Qed.

Lemma star_sound cls greedy k (s : jsstring) : forall own pieces rest,
  star cls greedy k s = Some (own, pieces, rest) ->
  exists s2, s = own ++ s2 /\ forallb cls own = true /\ k s2 = Some (pieces, rest).
Proof.
  induction s as [|x s IH]; intros own pieces rest H.
  - simpl in H. destruct (k []) as [[ps r]|] eqn:Hk; [|discriminate].
    injection H as <- <- <-. exists []. auto.
  - rewrite star_unfold in H. cbv zeta in H.
    assert (Hstop : match k (x :: s) with
                    | Some (ps, r) => Some ([], ps, r)
                    | None => None
                    end = Some (own, pieces, rest) ->
                    exists s2, x :: s = own ++ s2 /\ forallb cls own = true
                               /\ k s2 = Some (pieces, rest)).
    { intros Ho. destruct (k (x :: s)) as [[ps r]|] eqn:Hk; [|discriminate].
      injection Ho as <- <- <-. exists (x :: s). auto. }
    destruct (cls x) eqn:Hx; [|auto].
    assert (Hmore : match star cls greedy k s with
                    | Some (o, ps, r) => Some (x :: o, ps, r)
                    | None => None
                    end = Some (own, pieces, rest) ->
                    exists s2, x :: s = own ++ s2 /\ forallb cls own = true
                               /\ k s2 = Some (pieces, rest)).
    { intros Ho.
      destruct (star cls greedy k s) as [[[o' ps] r]|] eqn:Hs; [|discriminate].
      injection Ho as <- <- <-.
      destruct (IH _ _ _ eq_refl) as (s2 & -> & Hall & Hk).
      exists s2. simpl. rewrite Hx, Hall. auto. }
    destruct greedy.
    + destruct (star cls true k s) as [[[o' ps] r]|] eqn:Hs; auto.
    + destruct (k (x :: s)) as [[ps r]|] eqn:Hk; auto.
  Qed.

Lemma star_none cls greedy k (s : jsstring) :
  star cls greedy k s = None ->
  forall own s2, s = own ++ s2 -> forallb cls own = true -> k s2 = None.
Proof.
  induction s as [|x s IH]; intros H own s2 Heq Hall.
  - simpl in H. destruct own; [|discriminate]. simpl in Heq. subst s2.
    destruct (k []) as [[ps r]|]; [discriminate | reflexivity].
  - rewrite star_unfold in H. cbv zeta in H.
    assert (Hk : k (x :: s) = None).
    { destruct (k (x :: s)) as [[ps r]|] eqn:Hk; [|reflexivity].
      destruct (cls x); [|discriminate].
      destruct greedy; destruct (star cls _ k s) as [[[o' ps'] r']|]; discriminate. }
    destruct own as [|y own]; simpl in Heq.
    + subst s2. exact Hk.
    + injection Heq as <- ->. simpl in Hall.
      apply andb_prop in Hall as [Hx Hall]. rewrite Hx, Hk in H.
      apply IH with (own := own); [|reflexivity|exact Hall].
      destruct greedy; destruct (star cls _ k (own ++ s2)) as [[[o' ps'] r']|];
        [discriminate | reflexivity | discriminate | reflexivity].
Qed.

Lemma run_sound (p : list node) : forall s pieces rest,
  run p s = Some (pieces, rest) ->
  parses p pieces /\ s = concat pieces ++ rest.
Proof.
  induction p as [|n p IH]; intros s pieces rest H; simpl in H.
  - injection H as <- <-. split; [constructor | reflexivity].
  - destruct n as [c | cls greedy | | ].
    + destruct s as [|x s]; [discriminate|].
      destruct (N.eqb_spec x c) as [->|]; [|discriminate].
      destruct (run p s) as [[ps r]|] eqn:Hr; [|discriminate].
      injection H as <- <-. destruct (IH _ _ _ Hr) as [Hp ->].
      split; [constructor; [constructor | exact Hp] | reflexivity].
    + destruct (star cls greedy (run p) s) as [[[own ps] r]|] eqn:Hs; [|discriminate].
      injection H as <- <-.
      destruct (star_sound _ _ _ _ _ _ _ Hs) as (s2 & -> & Hall & Hk).
      destruct (IH _ _ _ Hk) as [Hp ->].
      split; [constructor; [constructor; exact Hall | exact Hp]|].
      simpl. rewrite <- app_assoc. reflexivity.
    + destruct (run p s) as [[ps r]|] eqn:Hr; [|discriminate].
      injection H as <- <-. destruct (IH _ _ _ Hr) as [Hp ->].
      split; [constructor; [constructor | exact Hp] | reflexivity].
    + destruct (run p s) as [[ps r]|] eqn:Hr; [|discriminate].
      injection H as <- <-. destruct (IH _ _ _ Hr) as [Hp ->].
      split; [constructor; [constructor | exact Hp] | reflexivity].
Qed.

Lemma run_complete (p : list node) : forall s,
  run p s = None ->
  forall pieces rest, parses p pieces -> s <> concat pieces ++ rest.
Proof.
  induction p as [|n p IH]; intros s H pieces rest Hp Heq; subst s.
  - discriminate.
  - inversion Hp as [|n' piece p' ps Hn Hps]; subst.
    cbn [concat] in H. rewrite <- app_assoc in H.
    inversion Hn; subst; simpl in H.
    + rewrite N.eqb_refl in H.
      destruct (run p (concat ps ++ rest)) as [[ps' r]|] eqn:Hr; [discriminate|].
      exact (IH _ Hr ps rest Hps eq_refl).
    + destruct (star cls greedy (run p) (piece ++ concat ps ++ rest))
        as [[[own ps'] r]|] eqn:Hs; [discriminate|].
      pose proof (star_none _ _ _ _ Hs piece _ eq_refl H0) as Hk.
      exact (IH _ Hk ps rest Hps eq_refl).
    + destruct (run p (concat ps ++ rest)) as [[ps' r]|] eqn:Hr; [discriminate|].
      exact (IH _ Hr ps rest Hps eq_refl).
    + destruct (run p (concat ps ++ rest)) as [[ps' r]|] eqn:Hr; [discriminate|].
      exact (IH _ Hr ps rest Hps eq_refl).
Qed.

(** The search is leftmost: it reports the first start position at which the
    pattern matches, and fails only when it matches nowhere. *)
Lemma search_some (p : list node) : forall s index m,
  search p s index = Some m ->
  exists before pieces rest,
    s = before ++ concat pieces ++ rest
    /\ m_index m = (index + length before)%nat
    /\ run p (concat pieces ++ rest) = Some (pieces, rest)
    /\ m_whole m = concat pieces
    /\ m_group1 m = group1 false p pieces.
Proof.
  induction s as [|x s IH]; intros index m H; simpl in H.
  - destruct (run p []) as [[ps r]|] eqn:Hr; [|discriminate].
    injection H as <-. destruct (run_sound _ _ _ _ Hr) as [_ Heq].
    exists [], ps, r. simpl. rewrite <- Heq, Hr. repeat split; auto with arith.
  - destruct (run p (x :: s)) as [[ps r]|] eqn:Hr.
    + injection H as <-. destruct (run_sound _ _ _ _ Hr) as [_ Heq].
      exists [], ps, r. simpl. rewrite <- Heq, Hr. repeat split; auto with arith.
    + destruct (IH _ _ H) as (before & ps & r & -> & Hi & Hrun & Hw & Hg).
      exists (x :: before), ps, r. simpl. repeat split; auto. lia.
Qed.

Lemma search_none (p : list node) : forall s index,
  search p s index = None ->
  forall before after, s = before ++ after -> run p after = None.
Proof.
  induction s as [|x s IH]; intros index H before after Heq; simpl in H.
  - destruct before; [|discriminate]. simpl in Heq. subst after.
    destruct (run p []) as [[ps r]|]; [discriminate | reflexivity].
  - destruct (run p (x :: s)) as [[ps r]|] eqn:Hr; [discriminate|].
    destruct before as [|y before]; simpl in Heq.
    + subst after. exact Hr.
    + injection Heq as <- ->. exact (IH _ H before after eq_refl).
Qed.

(** ** What the pattern of [extractJson] matches *)

Lemma any_unit_all (s : jsstring) : forallb any_unit s = true.
Proof.
  induction s as [|x s IH]; [reflexivity|].
  simpl. rewrite IH. unfold any_unit. rewrite orb_negb_r. reflexivity.
Qed.

Ltac invert_parse :=
  repeat match goal with
         | H : Forall2 _ (_ :: _) _ |- _ => inversion H; clear H; subst
         | H : Forall2 _ [] _ |- _ => inversion H; clear H; subst
         | H : node_takes (Lit _) _ |- _ => inversion H; clear H; subst
         | H : node_takes (Star _ _) _ |- _ => inversion H; clear H; subst
         | H : node_takes GroupOpen _ |- _ => inversion H; clear H; subst
         | H : node_takes GroupClose _ |- _ => inversion H; clear H; subst
         end.

Lemma parses_jsonRegex (pieces : list jsstring) :
  parses jsonRegex pieces <->
  exists ws1 group ws2,
    pieces = fence_pieces ws1 group ws2 /\ all_space ws1 /\ all_space ws2.
Proof.
  unfold parses. split.
  - intros H. cbn in H. invert_parse.
    eexists _, _, _. split; [reflexivity|]. split; assumption.
  - intros (ws1 & group & ws2 & -> & H1 & H2). cbn.
    repeat (constructor; try assumption). apply any_unit_all.
Qed.

Lemma fence_pieces_concat ws1 group ws2 :
  concat (fence_pieces ws1 group ws2) = fence_open ++ ws1 ++ group ++ ws2 ++ fence_close.
Proof. cbn. rewrite ?app_nil_r. reflexivity. Qed.

Lemma fence_pieces_group1 ws1 group ws2 :
  group1 false jsonRegex (fence_pieces ws1 group ws2) = group.
Proof. cbn. rewrite ?app_nil_r. reflexivity. Qed.

(** A match is an opening fence, white space, group 1, white space and a
    closing fence, at [m.index]. *)
Lemma str_match_some (raw : jsstring) (m : match_result) :
  str_match raw jsonRegex = Some m ->
  exists before ws1 ws2 after,
    raw = before ++ fence_open ++ ws1 ++ m_group1 m ++ ws2 ++ fence_close ++ after
    /\ all_space ws1 /\ all_space ws2
    /\ m_index m = length before
    /\ m_whole m = fence_open ++ ws1 ++ m_group1 m ++ ws2 ++ fence_close.
Proof.
  intros H. apply search_some in H as (before & pieces & rest & -> & Hi & Hrun & Hw & Hg).
  apply run_sound in Hrun as [Hp _].
  apply parses_jsonRegex in Hp as (ws1 & group & ws2 & -> & H1 & H2).
  rewrite fence_pieces_group1 in Hg. rewrite fence_pieces_concat in Hw.
  exists before, ws1, ws2, rest. rewrite Hg, Hw, fence_pieces_concat.
  repeat split; auto. rewrite <- !app_assoc. reflexivity.
Qed.

(** The pattern matches exactly when the string contains a fenced block. *)
Lemma str_match_fence (raw : jsstring) :
  str_match raw jsonRegex = None <-> ~ contains_fence raw.
Proof.
  split.
  - intros H (before & inside & after & ->).
    pose proof (search_none _ _ _ H before _ eq_refl) as Hr.
    apply (run_complete _ _ Hr (fence_pieces [] inside []) after).
    + apply parses_jsonRegex. exists [], inside, []. repeat split; reflexivity.
    + rewrite fence_pieces_concat. simpl. rewrite <- !app_assoc. reflexivity.
  - intros Hno. destruct (str_match raw jsonRegex) as [m|] eqn:Hm; [|reflexivity].
    exfalso. apply Hno.
    apply str_match_some in Hm as (before & ws1 & ws2 & after & -> & _).
    exists before, (ws1 ++ m_group1 m ++ ws2), after.
    rewrite <- !app_assoc. reflexivity.
Qed.

(** ** Which match the pattern picks *)

(** A greedy star keeps the longest run for which the rest of the pattern
    still matches. *)
Lemma star_greedy_longest cls k (s : jsstring) : forall own pieces rest,
  star cls true k s = Some (own, pieces, rest) ->
  forall own' s', s = own' ++ s' -> forallb cls own' = true ->
                  (length own < length own')%nat -> k s' = None.
Proof.
  induction s as [|x s IH]; intros own pieces rest H own' s' Heq Hall Hlen.
  - destruct own'; [simpl in Hlen; lia | discriminate].
  - rewrite star_unfold in H. cbv zeta in H.
    destruct own' as [|y own']; [simpl in Hlen; lia|].
    simpl in Heq. injection Heq as <- ->. simpl in Hall.
    apply andb_prop in Hall as [Hx Hall]. rewrite Hx in H.
    destruct (star cls true k (own' ++ s')) as [[[o ps] r]|] eqn:Hs.
    + injection H as <- <- <-. simpl in Hlen.
      apply (IH _ _ _ eq_refl own' s' eq_refl Hall). lia.
    + exact (star_none _ _ _ _ Hs own' s' eq_refl Hall).
Qed.

(** A lazy star keeps the shortest run for which the rest of the pattern
    matches. *)
Lemma star_lazy_shortest cls k (s : jsstring) : forall own pieces rest,
  star cls false k s = Some (own, pieces, rest) ->
  forall own' s', s = own' ++ s' -> (length own' < length own)%nat -> k s' = None.
Proof.
  induction s as [|x s IH]; intros own pieces rest H own' s' Heq Hlen.
  - simpl in H. destruct (k []) as [[ps r]|]; [|discriminate].
    injection H as <- <- <-. simpl in Hlen. lia.
  - rewrite star_unfold in H. cbv zeta in H.
    destruct (k (x :: s)) as [[ps r]|] eqn:Hk.
    + assert (own = []) as ->.
      { destruct (cls x); injection H as <- <- <-; reflexivity. }
      simpl in Hlen. lia.
    + destruct (cls x); [|discriminate].
      destruct (star cls false k s) as [[[o ps] r]|] eqn:Hs; [|discriminate].
      injection H as <- <- <-.
      destruct own' as [|y own']; simpl in Heq.
      * subst s'. exact Hk.
      * injection Heq as <- ->. simpl in Hlen.
        apply (IH _ _ _ eq_refl own' s' eq_refl). lia.
Qed.

Lemma run_jsonRegex_open (s : jsstring) :
  run jsonRegex (fence_open ++ s) =
  match star is_space true (run from_group) s with
  | Some (own, pieces, rest) => Some (map (fun c => [c]) fence_open ++ own :: pieces, rest)
  | None => None
  end.
Proof.
  cbn -[star from_group]. unfold from_group, after_group. cbn -[star].
  destruct (star is_space true _ s) as [[[own ps] r]|]; reflexivity.
Qed.

Lemma run_from_group (s : jsstring) :
  run from_group s =
  match star any_unit false (run after_group) s with
  | Some (own, pieces, rest) => Some ([] :: own :: pieces, rest)
  | None => None
  end.
Proof.
  unfold from_group. cbn -[star after_group].
  destruct (star any_unit false _ s) as [[[own ps] r]|]; reflexivity.
Qed.

Lemma after_group_matches (ws t : jsstring) :
  all_space ws -> run after_group (ws ++ fence_close ++ t) <> None.
Proof.
  intros Hws Hr.
  apply (run_complete _ _ Hr ([] :: ws :: map (fun c => [c]) fence_close) t).
  - unfold parses, after_group. cbn. repeat (constructor; try assumption).
  - cbn. rewrite <- !app_assoc. reflexivity.
Qed.

Lemma from_group_matches (inside t : jsstring) :
  run from_group (inside ++ fence_close ++ t) <> None.
Proof.
  intros Hr.
  apply (run_complete _ _ Hr ([] :: inside :: [] :: [] :: map (fun c => [c]) fence_close) t).
  - unfold parses, from_group, after_group. cbn.
    repeat (constructor; try apply any_unit_all).
  - cbn. rewrite <- !app_assoc. reflexivity.
Qed.

Lemma search_leftmost (p : list node) : forall s index m,
  search p s index = Some m ->
  (index <= m_index m)%nat
  /\ forall b1 b2, s = b1 ++ b2 -> (index + length b1 < m_index m)%nat -> run p b2 = None.
Proof.
  induction s as [|x s IH]; intros index m H; simpl in H.
  - destruct (run p []) as [[ps r]|] eqn:Hr; [|discriminate].
    injection H as <-. simpl. split; [lia|]. intros b1 b2 _ Hlt. lia.
  - destruct (run p (x :: s)) as [[ps r]|] eqn:Hr.
    + injection H as <-. simpl. split; [lia|]. intros b1 b2 _ Hlt. lia.
    + destruct (IH _ _ H) as [Hle Hbefore]. split; [lia|].
      intros b1 b2 Heq Hlt. destruct b1 as [|y b1]; simpl in Heq.
      * subst b2. exact Hr.
      * injection Heq as <- ->. apply (Hbefore b1 b2 eq_refl). simpl in Hlt. lia.
Qed.

Lemma run_jsonRegex_fence (inside t : jsstring) :
  run jsonRegex (fence_open ++ inside ++ fence_close ++ t) <> None.
Proof.
  intros Hr.
  apply (run_complete _ _ Hr (fence_pieces [] inside []) t).
  - apply parses_jsonRegex. exists [], inside, []. repeat split; reflexivity.
  - rewrite fence_pieces_concat. simpl. rewrite <- !app_assoc. reflexivity.
Qed.

(** The interior that [str.match(jsonRegex)] captures: it lies between the
    first opening fence that is followed by a closing fence and the first
    closing fence after it, without the white space at either end. *)
Lemma str_match_interior (raw : jsstring) (m : match_result) :
  str_match raw jsonRegex = Some m ->
  exists before ws1 ws2 after,
    raw = before ++ fence_open ++ ws1 ++ m_group1 m ++ ws2 ++ fence_close ++ after
    /\ all_space ws1 /\ all_space ws2
    /\ m_index m = length before
    /\ (forall b1 b2 tail, raw = b1 ++ b2 ++ tail -> (length b1 < length before)%nat ->
        forall inside, b2 <> fence_open ++ inside ++ fence_close)
    /\ (forall x g, m_group1 m = x :: g -> is_space x = false)
    /\ (forall g x, m_group1 m = g ++ [x] -> is_space x = false)
    /\ (forall a b, m_group1 m <> a ++ fence_close ++ b).
Proof.
  intros Hm. unfold str_match in Hm.
  destruct (search_leftmost _ _ _ _ Hm) as [_ Hleft].
  destruct (search_some _ _ _ _ Hm) as (before & pieces & rest & -> & Hi & Hrun & Hw & Hg).
  destruct (run_sound _ _ _ _ Hrun) as [Hp _].
  apply parses_jsonRegex in Hp as (ws1 & group & ws2 & -> & H1 & H2).
  rewrite fence_pieces_group1 in Hg. rewrite Hg. simpl in Hi.
  rewrite fence_pieces_concat in Hrun. rewrite <- !app_assoc in Hrun.
  rewrite run_jsonRegex_open in Hrun.
  destruct (star is_space true (run from_group) (ws1 ++ group ++ ws2 ++ fence_close ++ rest))
    as [[[own ps] r]|] eqn:Hgreedy; [|discriminate].
  cbn in Hrun. injection Hrun as -> -> ->.
  destruct (star_sound _ _ _ _ _ _ _ Hgreedy) as (s2 & Hs2 & _ & Hfrom).
  apply app_inv_head in Hs2. subst s2.
  rewrite run_from_group in Hfrom.
  destruct (star any_unit false (run after_group) (group ++ ws2 ++ fence_close ++ rest))
    as [[[own ps] r]|] eqn:Hlazy; [|discriminate].
  injection Hfrom as -> -> ->.
  exists before, ws1, ws2, rest.
  split; [rewrite fence_pieces_concat, <- !app_assoc; reflexivity|].
  split; [exact H1|]. split; [exact H2|]. split; [exact Hi|].
  split; [|split; [|split]].
  - intros b1 b2 tail Heq Hlen inside ->.
    assert (Hnone : run jsonRegex ((fence_open ++ inside ++ fence_close) ++ tail) = None).
    { apply (Hleft b1 _ Heq). rewrite Hi. lia. }
    rewrite <- !app_assoc in Hnone. exact (run_jsonRegex_fence _ _ Hnone).
  - intros x g -> . destruct (is_space x) eqn:Hx; [|reflexivity]. exfalso.
    apply (from_group_matches (g ++ ws2) rest). rewrite <- app_assoc.
    apply (star_greedy_longest _ _ _ _ _ _ Hgreedy (ws1 ++ [x])).
    + rewrite <- !app_assoc. reflexivity.
    + rewrite forallb_app. unfold all_space in H1. rewrite H1. simpl. rewrite Hx. reflexivity.
    + rewrite length_app. simpl. lia.
  - intros g x -> . destruct (is_space x) eqn:Hx; [|reflexivity]. exfalso.
    apply (after_group_matches (x :: ws2) rest).
    { unfold all_space. simpl. rewrite Hx. exact H2. }
    apply (star_lazy_shortest _ _ _ _ _ _ Hlazy g).
    + rewrite <- !app_assoc. reflexivity.
    + rewrite length_app. simpl. lia.
  - intros a b ->.
    apply (after_group_matches [] (b ++ ws2 ++ fence_close ++ rest)); [reflexivity|].
    apply (star_lazy_shortest _ _ _ _ _ _ Hlazy a).
    + rewrite <- !app_assoc. reflexivity.
    + rewrite !length_app. simpl. lia.
Qed.

(** ** JSON recovery *)

Lemma try_catch_lift_result {A} (c : completion A) (label : string) (d : A) :
  result_of (try_catch (lift c) (fun _ => console_error label ;;; ret d))
  = Return (match c with Return v => v | Throw _ => d end).
Proof. destruct c; reflexivity. Qed.

Lemma extractJson_result (str : jsstring) :
  result_of (extractJson str) = Return (value_or_null (JSON_parse (recovery_target str))).
Proof.
  unfold extractJson, recovery_target.
  destruct (usable_match (str_match str jsonRegex)); apply try_catch_lift_result.
Qed.

(** [extractJson] writes to the console only, and only when the parse
    failed. *)
Lemma extractJson_events (str : jsstring) :
  match JSON_parse (recovery_target str) with
  | Return _ => events_of (extractJson str) = []
  | Throw _ => exists label, events_of (extractJson str) = [ConsoleError label]
  end.
Proof.
  unfold extractJson, recovery_target.
  destruct (usable_match (str_match str jsonRegex)) as [g|].
  - destruct (JSON_parse g); [reflexivity | eexists; reflexivity].
  - destruct (JSON_parse str); [reflexivity | eexists; reflexivity].
Qed.

(** C6: on the fenced text of [{"a":1}] and on the bare text [{"a":1}]
    [extractJson] returns the object [{a: 1}]; on [not json] it returns
    [null]. *)
Theorem extractJson_three_inputs :
  result_of (extractJson fenced_a1) = Return object_a1
  /\ result_of (extractJson bare_a1) = Return object_a1
  /\ result_of (extractJson (js "not json")) = Return JNull.
Proof. repeat split; vm_compute; reflexivity. Qed.

(** C10: when the pattern matches with an empty group 1, [extractJson] does
    what it does when nothing matches: it parses the whole string, and
    returns [null] when that fails. *)
Theorem extractJson_empty_interior (raw : jsstring) (m : match_result) :
  str_match raw jsonRegex = Some m ->
  m_group1 m = [] ->
  extractJson raw = parse_whole raw
  /\ (forall other, str_match other jsonRegex = None -> extractJson other = parse_whole other)
  /\ (forall e, JSON_parse raw = Throw e -> result_of (extractJson raw) = Return JNull).
Proof.
  intros Hm Hg. split; [|split].
  - unfold extractJson. rewrite Hm. simpl. rewrite Hg. reflexivity.
  - intros other Hn. unfold extractJson. rewrite Hn. reflexivity.
  - intros e He. rewrite extractJson_result. unfold recovery_target.
    rewrite Hm. simpl. rewrite Hg. simpl. rewrite He. reflexivity.
Qed.

(** C10 at the input of an opening fence, a newline and a closing fence. *)
Lemma extractJson_empty_interior_witness :
  (exists m, str_match empty_fence jsonRegex = Some m /\ m_group1 m = [])
  /\ extractJson empty_fence = parse_whole empty_fence
  /\ result_of (extractJson empty_fence) = Return JNull.
Proof.
  split.
  - eexists. split; vm_compute; reflexivity.
  - pose proof (extractJson_empty_interior empty_fence
                  {| m_index := 0; m_whole := empty_fence; m_group1 := [] |}
                  eq_refl eq_refl) as [H1 [_ H3]].
    split; [exact H1 | apply (H3 SyntaxError); vm_compute; reflexivity].
Defined.

(** C4, counterexample: the string [quoted_fence] contains a fenced block,
    its interior is empty and does not parse, yet [extractJson] returns the
    string value of the whole text instead of [null]. *)
Lemma extractJson_quoted_fence :
  contains_fence quoted_fence
  /\ (exists m, str_match quoted_fence jsonRegex = Some m
                /\ JSON_parse (m_group1 m) = Throw SyntaxError)
  /\ result_of (extractJson quoted_fence) = Return (JStr (js "```json```"))
  /\ ~ recovers_fence_first quoted_fence.
Proof.
  split; [|split; [|split]].
  - exists [cu_quote], [], [cu_quote]. vm_compute. reflexivity.
  - eexists. split; vm_compute; reflexivity.
  - vm_compute. reflexivity.
  - vm_compute. discriminate.
Qed.

(** C4, amended: [extractJson] never throws.  It looks for a fenced block; a
    block with a non-empty interior has its interior parsed, and the whole
    string is parsed when there is no block or its interior is empty; a
    failed parse gives [null]. *)
Theorem extractJson_recovery (raw : jsstring) :
  exists target,
    result_of (extractJson raw) = Return (value_or_null (JSON_parse target))
    /\ ((~ contains_fence raw /\ target = raw)
        \/ (exists m, contains_fence raw
                      /\ str_match raw jsonRegex = Some m
                      /\ target = if jsstring_eqb (m_group1 m) [] then raw else m_group1 m)).
Proof.
  exists (recovery_target raw). split; [apply extractJson_result|].
  unfold recovery_target.
  destruct (str_match raw jsonRegex) as [m|] eqn:Hm.
  - right. exists m. split; [|split; [reflexivity|]].
    + apply str_match_some in Hm as (before & ws1 & ws2 & after & -> & _).
      exists before, (ws1 ++ m_group1 m ++ ws2), after.
      rewrite <- !app_assoc. reflexivity.
    + simpl. destruct (jsstring_eqb (m_group1 m) []); reflexivity.
  - left. split; [apply str_match_fence; exact Hm | reflexivity].
Qed.

(** ** The analyzer *)

Section AnalyzerProperties.
Variable model_generateContent : jsstring -> completion jsstring.

Local Abbreviation analyze := (analyzeResumeText model_generateContent).

(** The analyzer never throws: it returns what [extractJson] recovers from
    the reply, or [null] when the model call threw. *)
Lemma analyzeResumeText_result (text : jsstring) :
  result_of (analyze text) =
  Return (match model_generateContent (build_prompt text) with
          | Return reply => value_or_null (JSON_parse (recovery_target reply))
          | Throw _ => JNull
          end).
Proof.
  unfold analyzeResumeText, call_generateContent.
  destruct (model_generateContent (build_prompt text)) as [reply|e]; simpl.
  - pose proof (extractJson_result reply) as H.
    destruct (extractJson reply) as [r ev]. simpl in *. rewrite H. reflexivity.
  - reflexivity.
Qed.

Lemma analyzeResumeText_reply (text reply : jsstring) :
  model_generateContent (build_prompt text) = Return reply ->
  result_of (analyze text) = result_of (extractJson reply).
Proof.
  intros H. rewrite analyzeResumeText_result, H, extractJson_result. reflexivity.
Qed.

Lemma analyzeResumeText_throw (text : jsstring) (e : exn) :
  model_generateContent (build_prompt text) = Throw e ->
  analyze text =
  (Return JNull,
   [CallGenerateContent (build_prompt text); ConsoleError "Error calling Gemini API:"]).
Proof.
  intros H. unfold analyzeResumeText, call_generateContent. rewrite H. reflexivity.
Qed.

(** The analyzer calls the model once, first, and otherwise only writes to
    the console. *)
Lemma analyzeResumeText_events (text : jsstring) :
  exists logs,
    events_of (analyze text) = CallGenerateContent (build_prompt text) :: logs
    /\ forallb (fun ev => match ev with ConsoleError _ => true | _ => false end) logs = true.
Proof.
  unfold analyzeResumeText, call_generateContent.
  destruct (model_generateContent (build_prompt text)) as [reply|e]; simpl.
  - pose proof (extractJson_result reply) as Hr.
    pose proof (extractJson_events reply) as He.
    destruct (extractJson reply) as [r ev]. simpl in *. subst r. simpl.
    exists ev. split; [reflexivity|].
    destruct (JSON_parse (recovery_target reply)); [subst; reflexivity|].
    destruct He as [label ->]. reflexivity.
  - eexists. split; reflexivity.
Qed.

End AnalyzerProperties.

(** ** The text endpoint *)


Section TextRoute.
Variable model_generateContent : jsstring -> completion jsstring.

Lemma analyze_text_result (c : N) (text : jsstring) :
  result_of (analyze_text model_generateContent (TextBody (Some (c :: text)))) =
  match result_of (analyzeResumeText model_generateContent (c :: text)) with
  | Return v => Return (if truthy v then analysis_response v
                        else error_response 500 msg_text_failed)
  | Throw e => Throw e
  end.
Proof.
  unfold analyze_text. simpl.
  destruct (analyzeResumeText model_generateContent (c :: text)) as [[v|e] ev];
    [|reflexivity].
  simpl. destruct (truthy v); reflexivity.
Qed.


End TextRoute.

(** ** The file endpoint *)


Section FileRoute.
Variable model_generateContent : jsstring -> completion jsstring.
Variables pdf mammoth_extractRawText : bytes -> completion jsstring.

Local Abbreviation handle_file :=
  (analyze_file model_generateContent pdf mammoth_extractRawText).

Lemma analyze_extracted_result (text : jsstring) :
  result_of (analyze_extracted model_generateContent text) =
  match text with
  | [] => Return (error_response 500 msg_extract_failed)
  | _ :: _ =>
      match result_of (analyzeResumeText model_generateContent text) with
      | Return v => Return (if truthy v then analysis_response v
                            else error_response 500 msg_file_failed)
      | Throw e => Throw e
      end
  end.
Proof.
  destruct text as [|c text]; [reflexivity|].
  unfold analyze_extracted. simpl.
  destruct (analyzeResumeText model_generateContent (c :: text)) as [[v|e] ev];
    [|reflexivity].
  simpl. destruct (truthy v); reflexivity.
Qed.

Lemma analyze_extracted_returns (text : jsstring) :
  exists resp, result_of (analyze_extracted model_generateContent text) = Return resp.
Proof.
  rewrite analyze_extracted_result. destruct text; [eauto|].
  rewrite analyzeResumeText_result. eauto.
Qed.

Lemma analyze_file_result (f : file) :
  result_of (handle_file (Some f)) =
  match decoder_outcome pdf mammoth_extractRawText f with
  | None => Return (error_response 400 msg_unsupported)
  | Some (Throw _) => Return (error_response 500 msg_internal)
  | Some (Return text) => result_of (analyze_extracted model_generateContent text)
  end.
Proof.
  unfold analyze_file, decoder_outcome, jsstring_eqb, call_pdf, call_mammoth.
  destruct (decide (mimetype f = mime_pdf)) as [Hp|Hp].
  - rewrite bool_decide_eq_true_2 by exact Hp.
    destruct (pdf (buffer f)) as [text|e]; [|reflexivity].
    destruct (analyze_extracted_returns text) as [resp Hr].
    simpl. destruct (analyze_extracted model_generateContent text) as [r ev].
    simpl in *. subst r. reflexivity.
  - rewrite bool_decide_eq_false_2 by exact Hp.
    destruct (decide (mimetype f = mime_docx)) as [Hd|Hd].
    + rewrite bool_decide_eq_true_2 by exact Hd.
      destruct (mammoth_extractRawText (buffer f)) as [text|e]; [|reflexivity].
      destruct (analyze_extracted_returns text) as [resp Hr].
      simpl. destruct (analyze_extracted model_generateContent text) as [r ev].
      simpl in *. subst r. reflexivity.
    + rewrite bool_decide_eq_false_2 by exact Hd. reflexivity.
Qed.


End FileRoute.

(** ** Decoder selection *)

Lemma decoders_called_app (a b : list event) :
  decoders_called (a ++ b) = decoders_called a ++ decoders_called b.
Proof.
  induction a as [|ev a IH]; [reflexivity|].
  simpl. destruct (decoder_call ev); simpl; rewrite IH; reflexivity.
Qed.

Lemma decoders_called_logs (logs : list event) :
  forallb (fun ev => match ev with ConsoleError _ => true | _ => false end) logs = true ->
  decoders_called logs = [].
Proof.
  induction logs as [|ev logs IH]; [reflexivity|].
  simpl. destruct ev; simpl; try discriminate. exact IH.
Qed.

Section DecoderSelection.
Variable model_generateContent : jsstring -> completion jsstring.
Variables pdf mammoth_extractRawText : bytes -> completion jsstring.

Local Abbreviation handle_file :=
  (analyze_file model_generateContent pdf mammoth_extractRawText).

Lemma analyzeResumeText_no_decoder (text : jsstring) :
  decoders_called (events_of (analyzeResumeText model_generateContent text)) = [].
Proof.
  destruct (analyzeResumeText_events model_generateContent text) as (logs & -> & Hl).
  simpl. apply decoders_called_logs. exact Hl.
Qed.

Lemma analyze_extracted_no_decoder (text : jsstring) :
  decoders_called (events_of (analyze_extracted model_generateContent text)) = [].
Proof.
  unfold analyze_extracted. destruct (jsstring_eqb text []); [reflexivity|].
  pose proof (analyzeResumeText_no_decoder text) as H.
  pose proof (analyzeResumeText_result model_generateContent text) as Hr.
  destruct (analyzeResumeText model_generateContent text) as [r ev].
  simpl in *. subst r. simpl.
  destruct (truthy _); simpl; rewrite app_nil_r; exact H.
Qed.

(** After a decoder call, the rest of the handler calls no decoder. *)
Lemma decoded_then_analyzed (call : event) (outcome : completion jsstring) handler :
  decoders_called
    (events_of
       (try_catch
          (text <- (emit call ;;; lift outcome) ;;
           analyze_extracted model_generateContent text)
          (fun error => console_error handler ;;; ret (error_response 500 msg_internal))))
  = decoders_called [call].
Proof.
  destruct outcome as [text|e]; [|destruct call; reflexivity].
  pose proof (analyze_extracted_no_decoder text) as H.
  destruct (analyze_extracted_returns model_generateContent text) as [resp Hr].
  simpl. destruct (analyze_extracted model_generateContent text) as [r ev].
  simpl in *. subst r. simpl.
  destruct (decoder_call call); simpl; rewrite H; reflexivity.
Qed.

(** C7: the decoder is chosen by the declared media type alone.  The PDF
    type sends the buffer to the PDF decoder and nothing to the DOCX one,
    the DOCX type sends it to the DOCX decoder, and any other type, such
    as text/plain, calls no decoder and is answered 400 "Unsupported file
    type", whatever the bytes are. *)
Theorem decoder_selection (f : file) :
  decoders_called (events_of (handle_file (Some f))) =
    (if decide (mimetype f = mime_pdf) then [(PdfDecoder, buffer f)]
     else if decide (mimetype f = mime_docx) then [(DocxDecoder, buffer f)]
     else [])
  /\ (mimetype f <> mime_pdf -> mimetype f <> mime_docx ->
      handle_file (Some f) = (Return (error_response 400 msg_unsupported), []))
  /\ (forall content,
        handle_file (Some (text_plain_upload content))
        = (Return (error_response 400 msg_unsupported), [])).
Proof.
  split; [|split].
  - unfold analyze_file, jsstring_eqb, call_pdf, call_mammoth.
    destruct (decide (mimetype f = mime_pdf)) as [Hp|Hp].
    + rewrite bool_decide_eq_true_2 by exact Hp. apply decoded_then_analyzed.
    + rewrite bool_decide_eq_false_2 by exact Hp.
      destruct (decide (mimetype f = mime_docx)) as [Hd|Hd].
      * rewrite bool_decide_eq_true_2 by exact Hd. apply decoded_then_analyzed.
      * rewrite bool_decide_eq_false_2 by exact Hd. reflexivity.
  - intros Hp Hd. unfold analyze_file, jsstring_eqb.
    rewrite !bool_decide_eq_false_2 by assumption. reflexivity.
  - intros content. reflexivity.
Qed.

End DecoderSelection.

(** ** Failures of the analysis *)

(** The falsy values [JSON.parse] can give. *)
Lemma falsy_values (v : json) :
  truthy v = false <->
  v = JNull \/ v = JBool false
  \/ (exists n, v = JNum n /\ number_is_zero n = true)
  \/ v = JStr [].
Proof.
  split.
  - destruct v as [|b|n|s|items|props]; simpl; intros H; try discriminate.
    + auto.
    + subst b. auto.
    + right. right. left. exists n. split; [reflexivity|].
      destruct (number_is_zero n); [reflexivity | discriminate].
    + right. right. right. unfold jsstring_eqb in H.
      destruct s; [reflexivity | discriminate].
  - intros [-> | [-> | [[n [-> Hn]] | ->]]]; simpl; try reflexivity.
    rewrite Hn. reflexivity.
Qed.

Section AnalysisFailure.
Variable model_generateContent : jsstring -> completion jsstring.
Variables pdf mammoth_extractRawText : bytes -> completion jsstring.

Local Abbreviation handle_text := (analyze_text model_generateContent).
Local Abbreviation handle_file :=
  (analyze_file model_generateContent pdf mammoth_extractRawText).

(** Both endpoints, once they reach the analyzer with a non-empty text,
    answer by the truthiness of its result. *)
Lemma routes_by_analysis (text : jsstring) (f : file) (v : json) :
  text <> [] ->
  decoder_outcome pdf mammoth_extractRawText f = Some (Return text) ->
  result_of (analyzeResumeText model_generateContent text) = Return v ->
  result_of (handle_text (TextBody (Some text)))
  = Return (if truthy v then analysis_response v else error_response 500 msg_text_failed)
  /\ result_of (handle_file (Some f))
     = Return (if truthy v then analysis_response v else error_response 500 msg_file_failed).
Proof.
  intros Hne Hdec Hv. split.
  - destruct text as [|c text]; [congruence|].
    rewrite analyze_text_result, Hv. reflexivity.
  - rewrite analyze_file_result, Hdec, analyze_extracted_result.
    destruct text as [|c text]; [congruence|]. rewrite Hv. reflexivity.
Qed.

(** C5: when the model call throws, [analyzeResumeText] returns [null]
    instead of throwing, and the endpoint that called it answers 500 with
    its own message: "Failed to analyze resume from text." on the text
    route, "Failed to analyze resume from file." on the file route. *)
Theorem model_failure_is_analysis_failure (text : jsstring) (e : exn) :
  model_generateContent (build_prompt text) = Throw e ->
  result_of (analyzeResumeText model_generateContent text) = Return JNull
  /\ (text <> [] ->
      result_of (handle_text (TextBody (Some text)))
      = Return (error_response 500 msg_text_failed))
  /\ (forall f,
        text <> [] ->
        decoder_outcome pdf mammoth_extractRawText f = Some (Return text) ->
        result_of (handle_file (Some f))
        = Return (error_response 500 msg_file_failed)).
Proof.
  intros Hthrow.
  assert (Hnull : result_of (analyzeResumeText model_generateContent text) = Return JNull).
  { rewrite (analyzeResumeText_throw _ _ _ Hthrow). reflexivity. }
  split; [exact Hnull|]. split.
  - intros Hne. destruct text as [|c text]; [congruence|].
    rewrite analyze_text_result, Hnull. reflexivity.
  - intros f Hne Hdec.
    exact (proj2 (routes_by_analysis text f JNull Hne Hdec Hnull)).
Qed.

End AnalysisFailure.

(** C5 with a model that fails on every call, the text [x] and a PDF whose
    text is [x]. *)
Lemma model_failure_is_analysis_failure_witness :
  result_of (analyzeResumeText (failing "quota exceeded") (js "x")) = Return JNull
  /\ result_of (analyze_text (failing "quota exceeded") (TextBody (Some (js "x"))))
     = Return (error_response 500 msg_text_failed)
  /\ result_of (analyze_file (failing "quota exceeded") (decoding (js "x")) (decoding [])
                  (Some pdf_upload))
     = Return (error_response 500 msg_file_failed).
Proof.
  destruct (model_failure_is_analysis_failure (failing "quota exceeded")
              (decoding (js "x")) (decoding [])
              (js "x") (CollaboratorError (js "quota exceeded")) eq_refl)
    as (Hnull & Htext & Hfile).
  split; [exact Hnull|]. split.
  - apply Htext. discriminate.
  - apply Hfile; [discriminate | reflexivity].
Defined.

(** The replies [null], [false], [0], [-0.0], [1e-400] and the empty string
    literal are answered 500; [1], a non-empty string and [[]] are answered
    200. *)
Lemma replies_by_truthiness :
  Forall (fun reply =>
            result_of (analyze_text (replying (js reply)) (TextBody (Some (js "x"))))
            = Return (error_response 500 msg_text_failed))
         ["null"; "false"; "0"; "-0.0"; "1e-400"; dq +:+ dq]
  /\ Forall (fun reply =>
               exists v,
                 result_of (analyze_text (replying (js reply)) (TextBody (Some (js "x"))))
                 = Return (analysis_response v))
            ["1"; dq +:+ "a" +:+ dq; "[]"; "5e-324"].
Proof.
  split; repeat constructor; try (vm_compute; reflexivity);
    eexists; vm_compute; reflexivity.
Qed.

Section FalsyRecovery.
Variable model_generateContent : jsstring -> completion jsstring.
Variables pdf mammoth_extractRawText : bytes -> completion jsstring.


End FalsyRecovery.


(** ** The shape of the analysis *)



Section AnalysisShape.
Variable model_generateContent : jsstring -> completion jsstring.
Variables pdf mammoth_extractRawText : bytes -> completion jsstring.



End AnalysisShape.


(** ** Start-up *)



(** * Further properties *)

(** ** Replies that are recovered *)

Lemma run_jsonRegex_other (x : N) (s : jsstring) :
  (x =? cu_backtick) = false -> run jsonRegex (x :: s) = None.
Proof. intros H. cbn -[star]. unfold cu_backtick in H. rewrite H. reflexivity. Qed.

(** The search passes over a preamble without backticks. *)
Lemma search_skip (pre : jsstring) : forall s index,
  no_backtick pre = true ->
  search jsonRegex (pre ++ s) index = search jsonRegex s (index + length pre)%nat.
Proof.
  induction pre as [|x pre IH]; intros s index H.
  - simpl. f_equal. lia.
  - simpl in H. apply andb_prop in H as [Hx H].
    apply negb_true_iff in Hx.
    cbn [app search]. rewrite (run_jsonRegex_other x _ Hx).
    rewrite (IH s (S index) H). f_equal. simpl. lia.
Qed.

(** A greedy star takes a whole run of its class when the pattern matches
    after it. *)
Lemma star_greedy_all cls k (ws : jsstring) : forall x r pieces rest,
  forallb cls ws = true -> cls x = false ->
  k (x :: r) = Some (pieces, rest) ->
  star cls true k (ws ++ x :: r) = Some (ws, pieces, rest).
Proof.
  induction ws as [|w ws IH]; intros x r pieces rest Hall Hx Hk.
  - cbn [app]. rewrite star_unfold. cbv zeta. rewrite Hx, Hk. reflexivity.
  - simpl in Hall. apply andb_prop in Hall as [Hw Hall].
    cbn [app]. rewrite star_unfold. cbv zeta. rewrite Hw.
    rewrite (IH x r pieces rest Hall Hx Hk). reflexivity.
Qed.

(** A lazy star stops at the first place where the pattern matches after
    it. *)
Lemma star_lazy_first cls k (t : jsstring) : forall r pieces rest,
  forallb cls t = true ->
  (forall a b, t = a ++ b -> b <> [] -> k (b ++ r) = None) ->
  k r = Some (pieces, rest) ->
  star cls false k (t ++ r) = Some (t, pieces, rest).
Proof.
  induction t as [|c t IH]; intros r pieces rest Hall Hnone Hk.
  - cbn [app]. destruct r as [|x r].
    + simpl. rewrite Hk. reflexivity.
    + rewrite star_unfold. cbv zeta. rewrite Hk. destruct (cls x); reflexivity.
  - simpl in Hall. apply andb_prop in Hall as [Hc Hall].
    cbn [app]. rewrite star_unfold. cbv zeta. rewrite Hc.
    pose proof (Hnone [] (c :: t) eq_refl ltac:(discriminate)) as Hstop.
    cbn [app] in Hstop. rewrite Hstop.
    rewrite (IH r pieces rest Hall); [reflexivity | | exact Hk].
    intros a b -> Hb. exact (Hnone (c :: a) b eq_refl Hb).
Qed.

Lemma is_space_backtick : is_space cu_backtick = false.
Proof. reflexivity. Qed.

Lemma all_space_last (b : jsstring) (d : N) :
  b <> [] -> forallb is_space b = true -> is_space (List.last b d) = true.
Proof.
  induction b as [|x b IH]; intros Hne Hall; [congruence|].
  simpl in Hall. apply andb_prop in Hall as [Hx Hall].
  destruct b as [|y b]; [exact Hx|].
  apply IH; [discriminate | exact Hall].
Qed.

Lemma last_suffix (a b : jsstring) (d d' : N) :
  b <> [] -> List.last (a ++ b) d = List.last b d'.
Proof.
  intros Hne. induction a as [|x a IH].
  - simpl. destruct b as [|y b]; [congruence|]. clear Hne.
    revert y. induction b as [|z b IHb]; intros y; [reflexivity|]. apply (IHb z).
  - cbn [app]. destruct (a ++ b) as [|y l] eqn:E.
    + destruct a; [simpl in E; congruence | discriminate].
    + exact IH.
Qed.

(** Text without backticks that runs into white space and a backtick is
    white space itself. *)
Lemma prefix_of_space_run (b : jsstring) : forall ws X Y,
  forallb is_space ws = true -> no_backtick b = true ->
  b ++ X = ws ++ cu_backtick :: Y -> forallb is_space b = true.
Proof.
  induction b as [|c b IH]; intros ws X Y Hws Hb Heq; [reflexivity|].
  simpl in Hb. apply andb_prop in Hb as [Hc Hb]. apply negb_true_iff in Hc.
  destruct ws as [|w ws]; simpl in Heq.
  - injection Heq as -> _. rewrite N.eqb_refl in Hc. discriminate.
  - injection Heq as -> Heq. simpl in Hws. apply andb_prop in Hws as [Hw Hws].
    simpl. rewrite Hw. exact (IH ws X Y Hws Hb Heq).
Qed.

Lemma after_group_sound (s : jsstring) pieces rest :
  run after_group s = Some (pieces, rest) ->
  exists ws, forallb is_space ws = true /\ s = ws ++ fence_close ++ rest.
Proof.
  intros H. apply run_sound in H as [Hp ->].
  unfold parses, after_group in Hp. cbn in Hp. invert_parse.
  eexists. split; [eassumption|]. cbn. rewrite <- app_assoc. reflexivity.
Qed.

(** Inside trimmed text without backticks the pattern cannot close. *)
Lemma after_group_inside (t a b r : jsstring) :
  no_backtick t = true -> trimmed t = true ->
  t = a ++ b -> b <> [] ->
  run after_group (b ++ r) = None.
Proof.
  intros Hnb Htr -> Hb.
  destruct (run after_group (b ++ r)) as [[pieces rest]|] eqn:Hr; [|reflexivity].
  exfalso. apply after_group_sound in Hr as (ws & Hws & Heq).
  assert (Hbb : no_backtick b = true).
  { unfold no_backtick in *. rewrite forallb_app in Hnb.
    apply andb_prop in Hnb as [_ Hnb]. exact Hnb. }
  pose proof (prefix_of_space_run b ws r _ Hws Hbb Heq) as Hsp.
  unfold trimmed in Htr. destruct (a ++ b) as [|c l] eqn:E.
  - discriminate.
  - apply andb_prop in Htr as [_ Hlast]. apply negb_true_iff in Hlast.
    rewrite <- E in Hlast. rewrite (last_suffix a b c c Hb) in Hlast.
    rewrite (all_space_last b c Hb Hsp) in Hlast. discriminate.
Qed.

Lemma after_group_closes (ws2 post : jsstring) :
  forallb is_space ws2 = true ->
  run after_group (ws2 ++ fence_close ++ post)
  = Some ([] :: ws2 :: map (fun c => [c]) fence_close, post).
Proof.
  intros Hws. unfold after_group. cbn -[star].
  change (fence_close ++ post) with (cu_backtick :: cu_backtick :: cu_backtick :: post).
  rewrite (star_greedy_all is_space _ ws2 cu_backtick _
             (map (fun c => [c]) fence_close) post Hws is_space_backtick);
    reflexivity.
Qed.

(** The match of a fenced reply: it starts after the preamble and its group
    is the wrapped text. *)
Lemma fenced_reply_match (pre ws1 t ws2 post : jsstring) :
  no_backtick pre = true -> no_backtick t = true -> trimmed t = true ->
  all_space ws1 -> all_space ws2 ->
  str_match (fenced_reply pre ws1 t ws2 post) jsonRegex
  = Some {| m_index := length pre;
            m_whole := fence_open ++ ws1 ++ t ++ ws2 ++ fence_close;
            m_group1 := t |}.
Proof.
  intros Hpre Hnb Htr H1 H2. unfold str_match, fenced_reply.
  rewrite (search_skip pre _ 0 Hpre).
  assert (Hrun : run jsonRegex (fence_open ++ ws1 ++ t ++ ws2 ++ fence_close ++ post)
                 = Some (fence_pieces ws1 t ws2, post)).
  { rewrite run_jsonRegex_open.
    destruct t as [|c t'] eqn:Et; [discriminate|]. rewrite <- Et in *.
    assert (Hc : is_space c = false).
    { rewrite Et in Htr. simpl in Htr. apply andb_prop in Htr as [Hc _].
      apply negb_true_iff in Hc. exact Hc. }
    assert (Hfrom : run from_group (t ++ ws2 ++ fence_close ++ post)
                    = Some ([] :: t :: [] :: ws2 :: map (fun c => [c]) fence_close, post)).
    { rewrite run_from_group.
      rewrite (star_lazy_first any_unit _ t _ _ post (any_unit_all t)
                 (fun a b Ha Hb => after_group_inside t a b _ Hnb Htr Ha Hb)
                 (after_group_closes ws2 post H2)).
      reflexivity. }
    rewrite Et in Hfrom |- *. cbn [app] in Hfrom |- *.
    rewrite (star_greedy_all is_space _ ws1 c _ _ post H1 Hc Hfrom).
    reflexivity. }
  destruct (fence_open ++ ws1 ++ t ++ ws2 ++ fence_close ++ post) as [|x s] eqn:E;
    [discriminate|].
  cbn [search]. rewrite Hrun.
  rewrite fence_pieces_concat, fence_pieces_group1. simpl. reflexivity.
Qed.

(** X1: [str.match(jsonRegex)] finds a match exactly when the string holds
    an opening json fence with a closing fence somewhere after it; an
    opening fence that is never closed does not count. *)
Theorem json_fence_detection (raw : jsstring) :
  (exists m, str_match raw jsonRegex = Some m) <-> contains_fence raw.
Proof.
  split.
  - intros [m Hm].
    apply str_match_some in Hm as (before & ws1 & ws2 & after & -> & _).
    exists before, (ws1 ++ m_group1 m ++ ws2), after.
    rewrite <- !app_assoc. reflexivity.
  - intros Hf. destruct (str_match raw jsonRegex) as [m|] eqn:Hm; [eauto|].
    apply str_match_fence in Hm. contradiction.
Qed.



Lemma trimmed_nonempty (t : jsstring) : trimmed t = true -> jsstring_eqb t [] = false.
Proof. destruct t; [discriminate | reflexivity]. Qed.

(** X3: a reply that wraps a text in a json fence is recovered from that
    text alone.  When the preamble and the text hold no backtick and the
    text has no white space at its ends, [extractJson] returns what
    [JSON.parse] makes of the text, or [null], whatever the white space
    inside the fence and whatever follows the closing fence. *)
Theorem fenced_reply_recovered (pre ws1 t ws2 post : jsstring) :
  no_backtick pre = true -> no_backtick t = true -> trimmed t = true ->
  all_space ws1 -> all_space ws2 ->
  recovery_target (fenced_reply pre ws1 t ws2 post) = t
  /\ result_of (extractJson (fenced_reply pre ws1 t ws2 post))
     = Return (value_or_null (JSON_parse t))
  /\ forall other, extractJson (fenced_reply pre ws1 t ws2 other)
                   = extractJson (fenced_reply pre ws1 t ws2 post).
Proof.
  intros Hpre Hnb Htr H1 H2.
  assert (Htarget : forall p, recovery_target (fenced_reply pre ws1 t ws2 p) = t).
  { intros p. unfold recovery_target.
    rewrite (fenced_reply_match pre ws1 t ws2 p Hpre Hnb Htr H1 H2). simpl.
    rewrite (trimmed_nonempty t Htr). reflexivity. }
  split; [apply Htarget|]. split.
  - rewrite extractJson_result, Htarget. reflexivity.
  - intros other. unfold extractJson.
    rewrite !(fenced_reply_match pre ws1 t ws2 _ Hpre Hnb Htr H1 H2). simpl.
    rewrite (trimmed_nonempty t Htr). reflexivity.
Qed.

(** X3 on [sample_reply]: a preamble, the fenced analysis and a second
    fenced block. *)
Lemma fenced_reply_recovered_witness :
  result_of (extractJson sample_reply) = Return sample_analysis.
Proof.
  destruct (fenced_reply_recovered (js ("Here is the analysis:" +:+ nl)) (js nl)
              sample_analysis_text (js nl)
              (js (nl +:+ "```json" +:+ nl +:+ "1" +:+ nl +:+ "```"))
              eq_refl eq_refl eq_refl eq_refl eq_refl) as (_ & H & _).
  exact H.
Defined.

Section FencedReply.
Variable model_generateContent : jsstring -> completion jsstring.
Variables pdf mammoth_extractRawText : bytes -> completion jsstring.


End FencedReply.


(** ** Replies that are not recovered *)

Lemma JSON_parse_backtick (raw r : jsstring) :
  skip_ws raw = cu_backtick :: r -> JSON_parse raw = Throw SyntaxError.
Proof.
  intros Hs. unfold JSON_parse.
  replace (parse_fuel raw) with (S (2 * length raw)) by (unfold parse_fuel; lia).
  cbn [parse_value]. rewrite Hs. vm_compute. reflexivity.
Qed.

(** X5: a reply that holds no json-tagged fenced block and begins, after
    white space, with a backtick is never recovered: [extractJson] returns
    [null] and logs that the string is not valid JSON.  So a reply in a
    fence without the json tag is lost. *)
Theorem other_fence_not_recovered (raw r : jsstring) :
  ~ contains_fence raw ->
  skip_ws raw = cu_backtick :: r ->
  extractJson raw = (Return JNull, [ConsoleError "String is not a valid JSON object:"]).
Proof.
  intros Hno Hs. apply str_match_fence in Hno.
  unfold extractJson. rewrite Hno. simpl.
  rewrite (JSON_parse_backtick raw r Hs). reflexivity.
Qed.

(** X5 on the fenced text of [{"a":1}] without the json tag. *)
Lemma other_fence_not_recovered_witness :
  extractJson untagged_reply
  = (Return JNull, [ConsoleError "String is not a valid JSON object:"]).
Proof.
  apply (other_fence_not_recovered untagged_reply
           (List.tl untagged_reply)).
  - apply str_match_fence. vm_compute. reflexivity.
  - vm_compute. reflexivity.
Defined.

(** ** What a request leaves behind *)

Lemma extractJson_run (reply : jsstring) :
  extractJson reply
  = (Return (value_or_null (JSON_parse (recovery_target reply))),
     analyzer_logs (Return reply)).
Proof.
  unfold analyzer_logs, parse_failure_label, extractJson, recovery_target.
  destruct (usable_match (str_match reply jsonRegex)) as [g|].
  - destruct (JSON_parse g); reflexivity.
  - destruct (JSON_parse reply); reflexivity.
Qed.

Section Traces.
Variable model_generateContent : jsstring -> completion jsstring.
Variables pdf mammoth_extractRawText : bytes -> completion jsstring.

(** The value the analyzer returns for a text. *)
Local Abbreviation analysis_of text :=
  (match model_generateContent (build_prompt text) with
   | Return reply => value_or_null (JSON_parse (recovery_target reply))
   | Throw _ => JNull
   end).

Lemma analyzeResumeText_run (text : jsstring) :
  analyzeResumeText model_generateContent text
  = (Return (analysis_of text),
     CallGenerateContent (build_prompt text)
     :: analyzer_logs (model_generateContent (build_prompt text))).
Proof.
  unfold analyzeResumeText, call_generateContent.
  destruct (model_generateContent (build_prompt text)) as [reply|e]; simpl.
  - rewrite extractJson_run. reflexivity.
  - reflexivity.
Qed.

Lemma analyze_text_run (c : N) (text : jsstring) :
  analyze_text model_generateContent (TextBody (Some (c :: text)))
  = (Return (if truthy (analysis_of (c :: text))
             then analysis_response (analysis_of (c :: text))
             else error_response 500 msg_text_failed),
     CallGenerateContent (build_prompt (c :: text))
     :: analyzer_logs (model_generateContent (build_prompt (c :: text)))).
Proof.
  unfold analyze_text. cbn [provided resumeText].
  rewrite analyzeResumeText_run. cbn [bind].
  destruct (truthy _); simpl; rewrite app_nil_r; reflexivity.
Qed.

Lemma analyze_extracted_run (c : N) (text : jsstring) :
  analyze_extracted model_generateContent (c :: text)
  = (Return (if truthy (analysis_of (c :: text))
             then analysis_response (analysis_of (c :: text))
             else error_response 500 msg_file_failed),
     CallGenerateContent (build_prompt (c :: text))
     :: analyzer_logs (model_generateContent (build_prompt (c :: text)))).
Proof.
  unfold analyze_extracted. change (jsstring_eqb (c :: text) []) with false. cbv iota.
  rewrite analyzeResumeText_run. cbn [bind].
  destruct (truthy _); simpl; rewrite app_nil_r; reflexivity.
Qed.




Lemma call_then_run {A} (call : event) (outcome : completion jsstring)
    (k : jsstring -> M A) (h : exn -> M A) :
  try_catch (text <- (emit call ;;; lift outcome) ;; k text) h
  = match outcome with
    | Return text =>
        match k text with
        | (Return a, t) => (Return a, call :: t)
        | (Throw e, t) => let '(r, t') := h e in (r, (call :: t) ++ t')
        end
    | Throw e => let '(r, t') := h e in (r, call :: t')
    end.
Proof.
  destruct outcome as [text|e]; simpl.
  - destruct (k text) as [[a|e] t]; simpl; [reflexivity|].
    destruct (h e) as [r t']. reflexivity.
  - destruct (h e) as [r t']. reflexivity.
Qed.

(** X7: the events of the file endpoint.  Without a file or with an
    unsupported media type nothing is called; otherwise the decoder is
    called first, and the model is called, once and with the prompt of the
    extracted text, only when the decoder returned a non-empty text: never
    after a decoder exception, which is logged, nor for an empty text. *)
Theorem file_route_trace (req_file : option file) :
  let evs := events_of (analyze_file model_generateContent pdf mammoth_extractRawText
                          req_file) in
  match req_file with
  | None => evs = []
  | Some f =>
      match decoder_outcome pdf mammoth_extractRawText f with
      | None => evs = []
      | Some (Throw _) =>
          evs = [decoder_request f; ConsoleError "Error in file processing endpoint:"]
      | Some (Return []) => evs = [decoder_request f]
      | Some (Return text) =>
          evs = decoder_request f
                :: CallGenerateContent (build_prompt text)
                :: analyzer_logs (model_generateContent (build_prompt text))
      end
  end.
Proof.
  destruct req_file as [f|]; [|reflexivity]. cbv zeta.
  unfold analyze_file, decoder_outcome, decoder_request, jsstring_eqb, call_pdf, call_mammoth.
  destruct (decide (mimetype f = mime_pdf)) as [Hp|Hp].
  - rewrite bool_decide_eq_true_2 by exact Hp. rewrite call_then_run.
    destruct (pdf (buffer f)) as [[|c text]|e]; try reflexivity.
    rewrite analyze_extracted_run. reflexivity.
  - rewrite bool_decide_eq_false_2 by exact Hp.
    destruct (decide (mimetype f = mime_docx)) as [Hd|Hd].
    + rewrite bool_decide_eq_true_2 by exact Hd. rewrite call_then_run.
      destruct (mammoth_extractRawText (buffer f)) as [[|c text]|e]; try reflexivity.
      rewrite analyze_extracted_run. reflexivity.
    + rewrite bool_decide_eq_false_2 by exact Hd. reflexivity.
Qed.

(** X8: what the console tells about a 500 of the text endpoint for a
    non-empty text.  Either the model call threw and "Error calling Gemini
    API:" was logged, or the reply did not parse and the label of the parse
    that failed was logged, or nothing was logged and the reply was the JSON
    text of a falsy value. *)
Theorem analysis_failure_logged (text : jsstring) :
  text <> [] ->
  result_of (analyze_text model_generateContent (TextBody (Some text)))
  = Return (error_response 500 msg_text_failed) ->
  let logs := console_errors
                (events_of (analyze_text model_generateContent (TextBody (Some text)))) in
  (logs = ["Error calling Gemini API:"]
   /\ exists e, model_generateContent (build_prompt text) = Throw e)
  \/ (exists reply e,
        model_generateContent (build_prompt text) = Return reply
        /\ JSON_parse (recovery_target reply) = Throw e
        /\ logs = [parse_failure_label reply])
  \/ (exists reply v,
        model_generateContent (build_prompt text) = Return reply
        /\ JSON_parse (recovery_target reply) = Return v
        /\ truthy v = false
        /\ logs = []).
Proof.
  intros Hne. destruct text as [|c text]; [congruence|]. clear Hne.
  rewrite analyze_text_run. cbn [result_of events_of fst snd console_errors].
  destruct (model_generateContent (build_prompt (c :: text))) as [reply|e].
  - destruct (JSON_parse (recovery_target reply)) as [v|e] eqn:Hp; cbn [value_or_null].
    + destruct (truthy v) eqn:Hv; intros H; [discriminate|].
      right. right. exists reply, v.
      split; [reflexivity|]. split; [exact Hp|]. split; [exact Hv|].
      unfold analyzer_logs. rewrite Hp. reflexivity.
    + intros _. right. left. exists reply, e.
      split; [reflexivity|]. split; [exact Hp|].
      unfold analyzer_logs. rewrite Hp. reflexivity.
  - intros _. left. split; [reflexivity | eauto].
Qed.



End Traces.

(** X8 with a model that replies [0]: a 500 that leaves the console
    empty. *)
Lemma analysis_failure_logged_witness :
  let logs := console_errors
                (events_of (analyze_text (replying (js "0")) (TextBody (Some (js "x"))))) in
  (logs = ["Error calling Gemini API:"]
   /\ exists e, replying (js "0") (build_prompt (js "x")) = Throw e)
  \/ (exists reply e,
        replying (js "0") (build_prompt (js "x")) = Return reply
        /\ JSON_parse (recovery_target reply) = Throw e
        /\ logs = [parse_failure_label reply])
  \/ (exists reply v,
        replying (js "0") (build_prompt (js "x")) = Return reply
        /\ JSON_parse (recovery_target reply) = Return v
        /\ truthy v = false
        /\ logs = []).
Proof.
  apply (analysis_failure_logged (replying (js "0")) (js "x")).
  - discriminate.
  - vm_compute. reflexivity.
Defined.


(** ** The prompt and the pattern *)

(** X11: the prompt itself holds a fenced block, the instruction to answer
    in one, whose interior is three dots.  So for every resume text
    [extractJson] finds that block in the prompt first, fails to parse it
    and returns [null]: a model that echoes its prompt is answered 500,
    whatever the resume holds. *)
Theorem echoed_prompt_not_recovered (text : jsstring) :
  extractJson (build_prompt text)
  = (Return JNull, [ConsoleError "Failed to parse extracted JSON:"])
  /\ (text <> [] ->
      result_of (analyze_text echoing (TextBody (Some text)))
      = Return (error_response 500 msg_text_failed)).
Proof.
  assert (H : extractJson (build_prompt text)
              = (Return JNull, [ConsoleError "Failed to parse extracted JSON:"])).
  { vm_compute. reflexivity. }
  split; [exact H|].
  intros Hne. destruct text as [|c text]; [congruence|].
  rewrite analyze_text_result.
  rewrite (analyzeResumeText_reply echoing (c :: text) (build_prompt (c :: text)) eq_refl).
  rewrite H. reflexivity.
Qed.

(** ** Well-formed analyses *)

Lemma well_formed_truthy (v : json) :
  well_formed_AnalysisResult v = true -> truthy v = true.
Proof. destruct v; try discriminate; reflexivity. Qed.

Section WellFormedReply.
Variable model_generateContent : jsstring -> completion jsstring.
Variables pdf mammoth_extractRawText : bytes -> completion jsstring.

(** X12: a reply from which [extractJson] recovers a well-formed
    [AnalysisResult] is never turned into a failure: both endpoints answer
    200 and the [analysis] of the body is that well-formed value. *)
Theorem well_formed_reply_answered (text reply : jsstring) (v : json) :
  model_generateContent (build_prompt text) = Return reply ->
  result_of (extractJson reply) = Return v ->
  well_formed_AnalysisResult v = true ->
  text <> [] ->
  result_of (analyze_text model_generateContent (TextBody (Some text)))
  = Return (analysis_response v)
  /\ get_prop (js "analysis") (body (analysis_response v)) = Some v
  /\ forall f,
       decoder_outcome pdf mammoth_extractRawText f = Some (Return text) ->
       result_of (analyze_file model_generateContent pdf mammoth_extractRawText (Some f))
       = Return (analysis_response v).
Proof.
  intros Hreply Hv Hwf Hne.
  assert (Ha : result_of (analyzeResumeText model_generateContent text) = Return v).
  { rewrite (analyzeResumeText_reply _ _ _ Hreply). exact Hv. }
  pose proof (well_formed_truthy v Hwf) as Ht.
  split; [|split; [reflexivity|]].
  - destruct text as [|c text]; [congruence|].
    rewrite analyze_text_result, Ha, Ht. reflexivity.
  - intros f Hdec.
    rewrite (proj2 (routes_by_analysis model_generateContent pdf mammoth_extractRawText
                      text f v Hne Hdec Ha)), Ht.
    reflexivity.
Qed.

End WellFormedReply.

(** X12 with [sample_reply], whose analysis is well-formed. *)
Lemma well_formed_reply_answered_witness :
  well_formed_AnalysisResult sample_analysis = true
  /\ result_of (analyze_text (replying sample_reply) (TextBody (Some (js "x"))))
     = Return (analysis_response sample_analysis)
  /\ result_of (analyze_file (replying sample_reply) (decoding (js "x")) (decoding [])
                  (Some pdf_upload))
     = Return (analysis_response sample_analysis).
Proof.
  destruct (well_formed_reply_answered (replying sample_reply) (decoding (js "x"))
              (decoding []) (js "x") sample_reply sample_analysis
              eq_refl eq_refl eq_refl ltac:(discriminate)) as (Ht & _ & Hf).
  split; [reflexivity|]. split; [exact Ht|]. apply Hf. reflexivity.
Defined.
